(** * alphago: self-play orchestration, example building, training loop

    A shallow embedding of [src/alphago/alphago.py] and
    [src/alphago/player.py].  Python values are modelled as follows:

    - floats are IEEE 754 binary64 values ([spec_float] of the standard
      library, with the library's own rounding operations);
    - Python exceptions are the [Raise] outcome of [result]; an exception
      does not roll back mutations, so stateful code has type
      [S -> result A * S] and always returns the final store;
    - dictionaries iterated in insertion order ([OrderedDict], the
      action-probability maps) are association lists; dictionaries only
      indexed by key are [gmap]s;
    - printing and progress bars are not modelled. *)

From Stdlib Require Import ZArith.
From Stdlib.Floats Require Import SpecFloat.
From stdpp Require Import base option list gmap strings pretty.

Local Open Scope Z_scope.

(** ** Exceptions and outcomes *)

Inductive exn :=
  | IndexError
  | KeyError
  | TypeError
  | AttributeError
  | ZeroDivisionError
  | FileNotFoundError
  | ValueError
  | InvalidStateError
  | IllegalStateError.

(** [OutOfFuel] is not a Python outcome: it marks that a bounded unrolling
    of a [while] loop was too short. *)
Inductive result (A : Type) :=
  | Ok (a : A)
  | Raise (e : exn)
  | OutOfFuel.
Arguments Ok {A} a.
Arguments Raise {A} e.
Arguments OutOfFuel {A}.

#[global] Instance result_ret : MRet result := @Ok.
#[global] Instance result_bind : MBind result := fun A B f r =>
  match r with
  | Ok a => f a
  | Raise e => Raise e
  | OutOfFuel => OutOfFuel
  end.

(** [d[k]] on a dictionary. *)
Definition getitem `{Countable K} {V} (d : gmap K V) (k : K) : result V :=
  match d !! k with
  | Some v => Ok v
  | None => Raise KeyError
  end.

(** Stateful computations over a store [S]. *)
Definition stateful (S A : Type) : Type := S -> result A * S.

Definition sret {S A} (a : A) : stateful S A := fun s => (Ok a, s).
Definition sbind {S A B} (m : stateful S A) (k : A -> stateful S B)
  : stateful S B :=
  fun s =>
    match m s with
    | (Ok a, s') => k a s'
    | (Raise e, s') => (Raise e, s')
    | (OutOfFuel, s') => (OutOfFuel, s')
    end.
Definition lift {S A} (r : result A) : stateful S A := fun s => (r, s).
Definition sget {S} : stateful S S := fun s => (Ok s, s).

#[global] Instance stateful_ret {S} : MRet (stateful S) := fun A => sret.
#[global] Instance stateful_bind {S} : MBind (stateful S) :=
  fun A B k m => sbind m k.

(** ** Numbers *)

Abbreviation float := spec_float (only parsing).
Definition prec : Z := 53.
Definition emax : Z := 1024.

Definition float_of_Z (z : Z) : float := binary_normalize prec emax z 0 false.
Definition fzero : float := S754_zero false.
Definition fone : float := float_of_Z 1.
Definition fopp : float -> float := SFopp.
Definition fadd : float -> float -> float := SFadd prec emax.
Definition fmul : float -> float -> float := SFmul prec emax.
Definition fdiv : float -> float -> float := SFdiv prec emax.
Definition fsqrt : float -> float := SFsqrt prec emax.
Definition fltb : float -> float -> bool := SFltb.
(** The largest finite binary64 value, [numpy.finfo(float64).max]. *)
Definition float_max : float := SFmax_float prec emax.

(** Python's [a / b] on integers: the exact quotient, rounded once. *)
Definition truediv (a b : Z) : result float :=
  if decide (b = 0) then Raise ZeroDivisionError
  else Ok (fdiv (float_of_Z a) (float_of_Z b)).

(** [x != 0] on a float: NaN and the infinities are nonzero, both signed
    zeros are zero. *)
Definition is_nonzero (x : float) : bool :=
  match x with
  | S754_zero _ => false
  | _ => true
  end.

Definition is_finite (x : float) : bool :=
  match x with
  | S754_zero _ | S754_finite _ _ _ => true
  | S754_infinity _ | S754_nan => false
  end.

(** A one-dimensional numpy array of floats. *)
Abbreviation ndarray := (list float) (only parsing).

(** [np.zeros(n)] *)
Definition zeros (n : nat) : ndarray := replicate n fzero.

(** [v[i] = x] on an array: negative indices count from the end. *)
Definition setitem (v : ndarray) (i : Z) (x : float) : result ndarray :=
  let n := Z.of_nat (length v) in
  if decide (0 <= i < n) then Ok (<[Z.to_nat i := x]> v)
  else if decide (- n <= i < 0) then Ok (<[Z.to_nat (n + i) := x]> v)
  else Raise IndexError.

(** The position an index names in an array of length [n]. *)
Definition position (n : nat) (i : Z) : nat :=
  if decide (0 <= i) then Z.to_nat i else Z.to_nat (Z.of_nat n + i).

(** [np.nan_to_num(x)] with its default arguments ([nan=0.0],
    [posinf=None], [neginf=None]): NaN becomes 0, the infinities become
    the largest and the most negative finite value. *)
Definition nan_to_num1 (x : float) : float :=
  match x with
  | S754_nan => fzero
  | S754_infinity false => float_max
  | S754_infinity true => fopp float_max
  | _ => x
  end.
Definition nan_to_num (a : ndarray) : ndarray := map nan_to_num1 a.

(** [zip(l1, l2, l3)]: stops at the shortest argument. *)
Fixpoint zip3 {A B C} (l1 : list A) (l2 : list B) (l3 : list C)
  : list (A * B * C) :=
  match l1, l2, l3 with
  | a :: l1, b :: l2, c :: l3 => (a, b, c) :: zip3 l1 l2 l3
  | _, _, _ => []
  end.

(** ** The collaborators' types *)

Abbreviation Player := Z (only parsing).

Class Universe := {
  (** game states, opaque to this module *)
  State : Type;
  (** the numeric array [np.nan_to_num] sees when handed a state *)
  as_array : State -> ndarray;
  Action : Type;
  Action_eq_dec :: EqDecision Action;
  Action_countable :: Countable Action;
  (** estimator parameters *)
  Params : Type;
  (** state of the random source *)
  RNG : Type;
}.

(** An action-probability dictionary, as [items()] lists it. *)
Abbreviation Probs := (list (Action * float)) (only parsing).

(** An estimate function: [estimator(state) -> (prior_map, value)]. *)
Abbreviation EstimateFn :=
  (State -> gmap Action float * float) (only parsing).

(** One training tuple [(non_nan_state, action, probs_vector, z)]. *)
Record Example `{Universe} := {
  ex_state : ndarray;
  ex_action : Action;
  ex_probs : ndarray;
  ex_z : float;
}.

(** An [OrderedDict] from game index to game log. *)
Abbreviation SelfPlayData := (list (Z * list Example)) (only parsing).

Section Alphago.
Context `{U : Universe}.


(** The game object: the attributes the code reads. *)
Record Game := {
  initial_state : State;
  which_player : State -> Player;
  is_terminal_state : State -> bool;
  compute_next_states : State -> result (list (Action * State));
  utility : State -> result (gmap Player float);
  game_action_indices : gmap Action Z;
}.

(** *** process_self_play_data *)

(** The argument objects of one call, as the caller holds them. *)
Record Caller := {
  states_ : list State;
  actions_ : list Action;
  action_probs_ : list Probs;
  action_indices : gmap Action Z;
}.

(** [states_.pop()] *)
Definition pop_states : stateful Caller State :=
  fun c =>
    match last (states_ c) with
    | None => (Raise IndexError, c)
    | Some s =>
        (Ok s, {| states_ := removelast (states_ c);
                  actions_ := actions_ c;
                  action_probs_ := action_probs_ c;
                  action_indices := action_indices c |})
    end.

(** [for a, prob in probs.items(): probs_vector[action_indices[a]] = prob] *)
Fixpoint fill_probs (indices : gmap Action Z) (items : Probs)
    (probs_vector : ndarray) : result ndarray :=
  match items with
  | [] => Ok probs_vector
  | (a, prob) :: items =>
      i ← getitem indices a;
      probs_vector ← setitem probs_vector i prob;
      fill_probs indices items probs_vector
  end.

Definition dense_policy (indices : gmap Action Z) (probs : Probs)
  : result ndarray :=
  fill_probs indices probs (zeros (size indices)).

(** The indices at which an array holds a nonzero entry. *)
Definition nonzero_support (v : ndarray) : gset Z :=
  list_to_set
    (filter (fun j => from_option is_nonzero false (v !! Z.to_nat j))
            (map Z.of_nat (seq 0 (length v)))).

(** The indices of the actions of a probability map. *)
Definition index_set (indices : gmap Action Z) (probs : Probs) : gset Z :=
  list_to_set (omap (fun ap => indices !! ap.1) probs).

(** The body of the [for state, action, probs in zip(...)] loop. *)
Definition build_example (game : Game) (outcome : gmap Player float)
    (indices : gmap Action Z) (sap : State * Action * Probs)
  : result Example :=
  let '(state, action, probs) := sap in
  let player := which_player game state in
  z ← getitem outcome player;
  probs_vector ← dense_policy indices probs;
  let non_nan_state := nan_to_num (as_array state) in
  Ok {| ex_state := non_nan_state; ex_action := action;
        ex_probs := probs_vector; ex_z := z |}.

Fixpoint build_examples (game : Game) (outcome : gmap Player float)
    (indices : gmap Action Z) (l : list (State * Action * Probs))
    (training_data : list Example) : result (list Example) :=
  match l with
  | [] => Ok training_data
  | sap :: l =>
      ex ← build_example game outcome indices sap;
      build_examples game outcome indices l (training_data ++ [ex])
  end.

Definition process_self_play_data (game : Game)
  : stateful Caller (list Example) :=
  last_state ← pop_states;
  outcome ← lift (utility game last_state);
  c ← sget;
  lift (build_examples game outcome (action_indices c)
          (zip3 (states_ c) (actions_ c) (action_probs_ c)) []).

(** *** Search tree nodes ([mcts_tree.MCTSNode]) *)

(** Modelled from the spec: the class [MCTSNode] of the module
    [mcts_tree], which is not part of the sources.  The code reads
    [node.game_state], [node.is_terminal] and [node.children[action]]
    (itself a node); the statistics of the edge leading to a node (visit
    count [N], total value [W], prior [P]) are kept in that node. *)
#[warnings="-register-all"]
Inductive MCTSNode := mkNode {
  game_state : State;
  node_player : Player;
  is_terminal : bool;
  N : Z;
  W : float;
  prior : float;
  children : list (Action * MCTSNode);
}.

(** Modelled from the spec: [MCTSNode(game_state, player)], a root with no
    children and zero statistics. *)
Definition MCTSNode_new (s : State) (p : Player) : MCTSNode :=
  {| game_state := s; node_player := p; is_terminal := false;
     N := 0; W := fzero; prior := fzero; children := [] |}.

(** [node.children[action]] *)
Fixpoint children_getitem (l : list (Action * MCTSNode)) (a : Action)
  : result MCTSNode :=
  match l with
  | [] => Raise KeyError
  | (b, c) :: l => if decide (a = b) then Ok c else children_getitem l a
  end.


(** *** The world outside the interpreter *)


Inductive File :=
  | Checkpoint (p : Params)
  | Json (d : SelfPlayData).

Record World := {
  rng : RNG;
  files : gmap string File;
}.

Definition with_rng {A} (m : stateful RNG A) : stateful World A :=
  fun w =>
    let '(r, g) := m (rng w) in
    (r, {| rng := g; files := files w |}).

(** A computation that leaves every file as it found it. *)
Definition keeps_files {A} (m : stateful World A) : Prop :=
  forall w, files (m w).2 = files w.

(** Run a call on argument objects that are local to the caller: their
    final contents are dropped with the caller's frame. *)
Definition call_local {S T A} (m : stateful S A) (args : S) : stateful T A :=
  fun w => ((m args).1, w).

(** *** Names this module imports *)

(** Values passed to a constructor of [player.py]. *)
Inductive pyval :=
  | PyGame (g : Game)
  | PyEstimateFn (f : EstimateFn)
  | PyInt (z : Z)
  | PyFloat (x : float).

(** [from .player import MCTSPlayer, RandomPlayer]: a constructor is called
    with positional and keyword arguments. *)
Class PlayerModule := {
  PlayerObj : Type;
  MCTSPlayer : list pyval -> list (string * pyval) -> result PlayerObj;
  RandomPlayer : list pyval -> list (string * pyval) -> result PlayerObj;
}.

(** The modules [mcts_tree], [utilities] and [evaluator] are not part of
    the sources; their functions are parameters.
    - [mcts(node, game, estimator, mcts_iters, c_puct, tau=tau)] mutates
      [node]; here it returns the node as the search left it, with the
      action probabilities;
    - [sample_distribution(action_probs)] draws from the random source;
    - [evaluate(game, players, num_games)] plays with the random source
      and returns a pair; only its first component, [player1_results], is
      used. *)
Class Imports `{PlayerModule} := {
  mcts : MCTSNode -> Game -> EstimateFn -> Z -> float -> float ->
         result (MCTSNode * Probs);
  sample_distribution : Probs -> stateful RNG Action;
  evaluate : Game -> gmap Z PlayerObj -> Z -> stateful RNG (gmap Z Z);
}.

Context {PM : PlayerModule} {I : Imports}.

(** *** self_play *)

(** The local variables of [self_play].  [searches] is a ghost variable,
    not in the code: it records, for every call of [mcts], the node the
    call received and that node as the call left it. *)
Record Locals := {
  node : MCTSNode;
  game_state_list : list State;
  action_probs_list : list Probs;
  action_list : list Action;
  move_count : Z;
  searches : list (MCTSNode * MCTSNode);
}.

(** [while not node.is_terminal: ...], unrolled at most [fuel] times. *)
Fixpoint self_play_loop (fuel : nat) (game : Game) (estimator : EstimateFn)
    (mcts_iters : Z) (c_puct : float) (l : Locals)
  : stateful World Locals :=
  if is_terminal (node l) then mret l
  else
    match fuel with
    | O => lift OutOfFuel
    | S fuel =>
        tau ← lift (truediv 1 (move_count l + 1));
        '(searched, action_probs) ←
          lift (mcts (node l) game estimator mcts_iters c_puct tau);
        action ← with_rng (sample_distribution action_probs);
        next ← lift (children_getitem (children searched) action);
        self_play_loop fuel game estimator mcts_iters c_puct
          {| node := next;
             game_state_list := game_state_list l ++ [game_state next];
             action_probs_list := action_probs_list l ++ [action_probs];
             action_list := action_list l ++ [action];
             move_count := move_count l + 1;
             searches := searches l ++ [(node l, searched)] |}
    end.

Definition self_play_init (game : Game) : Locals :=
  let node :=
    MCTSNode_new (initial_state game)
                 (which_player game (initial_state game)) in
  {| node := node;
     game_state_list := [game_state node];
     action_probs_list := [];
     action_list := [];
     move_count := 0;
     searches := [] |}.

Definition self_play (fuel : nat) (game : Game) (estimator : EstimateFn)
    (mcts_iters : Z) (c_puct : float) : stateful World (list Example) :=
  l ← self_play_loop fuel game estimator mcts_iters c_puct
         (self_play_init game);
  call_local (process_self_play_data game)
    {| states_ := game_state_list l;
       actions_ := action_list l;
       action_probs_ := action_probs_list l;
       action_indices := game_action_indices game |}.

(** A node is fresh when it is what [MCTSNode(game_state, player)]
    creates for its state: no children, no statistics. *)
Definition fresh_root (game : Game) (n : MCTSNode) : Prop :=
  n = MCTSNode_new (game_state n) (which_player game (game_state n)).

(** The searches of one game, linked: the search of ply [m] receives
    [start] and leaves it as [post]; the search of the next ply receives
    [post.children[a]] for the action [a] played. *)
Fixpoint linked (game : Game) (estimator : EstimateFn) (mcts_iters : Z)
    (c_puct : float) (m : Z) (start : MCTSNode)
    (ss : list (MCTSNode * MCTSNode)) (acts : list Action) : Prop :=
  match ss, acts with
  | [], [] => True
  | (pre, post) :: ss, a :: acts =>
      pre = start /\
      (exists tau probs,
         truediv 1 (m + 1) = Ok tau /\
         mcts pre game estimator mcts_iters c_puct tau = Ok (post, probs)) /\
      exists next,
        children_getitem (children post) a = Ok next /\
        linked game estimator mcts_iters c_puct (m + 1) next ss acts
  | _, _ => False
  end.

(** What the loop of [self_play] keeps true of its lists, for a game that
    started in [s0]. *)
Definition shaped (s0 : State) (l : Locals) : Prop :=
  length (game_state_list l) = S (length (action_list l)) /\
  length (action_probs_list l) = length (action_list l) /\
  move_count l = Z.of_nat (length (action_list l)) /\
  head (game_state_list l) = Some s0 /\
  last (game_state_list l) = Some (game_state (node l)).

(** *** Estimators *)

(** Modelled from the spec: the estimator objects ([create_estimator()]
    and its methods), whose class is not part of the sources.  An
    estimator object is its parameter blob; [train] returns the blob it
    leaves in the object together with the losses; [create_estimator()]
    draws the initial parameters from the random source. *)
Class Estimator := {
  create_estimate_fn : Params -> EstimateFn;
  train : Params -> list (ndarray * ndarray * float) -> Z -> Z ->
          result (Params * list float);
}.

Context `{E : Estimator}.

(** Modelled from the spec: [estimator.save(path)] writes the parameter
    blob under [path]. *)
Definition save (p : Params) (path : string) : stateful World unit :=
  fun w => (Ok tt, {| rng := rng w;
                      files := <[path := Checkpoint p]> (files w) |}).

(** Modelled from the spec: [estimator.restore(path)] replaces the
    parameters by the blob stored under [path]; a missing or corrupt
    checkpoint is an error. *)
Definition restore (path : string) : stateful World Params :=
  fun w =>
    match files w !! path with
    | Some (Checkpoint p) => (Ok p, w)
    | Some (Json _) => (Raise ValueError, w)
    | None => (Raise FileNotFoundError, w)
    end.

(** *** Checkpoints *)

(** [path + "{}.checkpoint".format(step)] *)
Definition compute_checkpoint_name (step : Z) (path : string) : string :=
  path +:+ pretty step +:+ ".checkpoint".

Definition checkpoint_model (player : Params) (step : Z) (path : string)
  : stateful World unit :=
  let checkpoint_name := compute_checkpoint_name step path in
  save player checkpoint_name.

(** *** generate_self_play_data *)

(** [data[index] = v] on an [OrderedDict]: a present key keeps its place. *)
Fixpoint dict_set {V} (d : list (Z * V)) (k : Z) (v : V) : list (Z * V) :=
  match d with
  | [] => [(k, v)]
  | (k', v') :: d =>
      if decide (k = k') then (k, v) :: d else (k', v') :: dict_set d k v
  end.

(** [max(data.keys())] *)
Definition max_key {V} (d : list (Z * V)) : result Z :=
  match d with
  | [] => Raise ValueError
  | (k, _) :: d => Ok (foldr (fun kv m => Z.max kv.1 m) k d)
  end.

(** [open(path, 'r')]: the file has to exist. *)
Definition open_r (path : string) : stateful World unit :=
  fun w =>
    match files w !! path with
    | Some _ => (Ok tt, w)
    | None => (Raise FileNotFoundError, w)
    end.

(** [json.load(save_file_path)]: the argument is the path, a [str], not
    the open file; [json.load] calls [.read()] on it. *)
Definition json_load_str (path : string) : stateful World SelfPlayData :=
  lift (Raise AttributeError).

(** [json.dump(data, f)] on [open(path, 'w')] *)
Definition json_dump (data : SelfPlayData) (path : string)
  : stateful World unit :=
  fun w => (Ok tt, {| rng := rng w; files := <[path := Json data]> (files w) |}).

(** [for _ in range(num_iters): data[index] = self_play(...)] *)
Fixpoint self_play_games (fuel : nat) (game : Game) (estimator : Params)
    (mcts_iters : Z) (c_puct : float) (num_iters : nat)
    (data : SelfPlayData) (index : Z) : stateful World SelfPlayData :=
  match num_iters with
  | O => mret data
  | S num_iters =>
      log ← self_play fuel game (create_estimate_fn estimator)
               mcts_iters c_puct;
      self_play_games fuel game estimator mcts_iters c_puct num_iters
        (dict_set data index log) index
  end.

Definition generate_self_play_data (fuel : nat) (game : Game)
    (estimator : Params) (mcts_iters : Z) (c_puct : float) (num_iters : Z)
    (save_file_path : option string) : stateful World SelfPlayData :=
  '(data, index) ←
    match save_file_path with
    | Some path =>
        _ ← open_r path;
        data ← json_load_str path;
        m ← lift (max_key data);
        mret (data, m + 1)
    | None => mret ([], 0)
    end;
  data ← self_play_games fuel game estimator mcts_iters c_puct
            (Z.to_nat num_iters) data index;
  _ ← match save_file_path with
      | Some path => json_dump data path
      | None => mret tt
      end;
  mret data.

(** *** process_training_data *)

(** [l[-n:]] *)
Definition slice_last {A} (n : Z) (l : list A) : list A :=
  if decide (0 < n) then drop (length l - Z.to_nat n) l
  else drop (Z.to_nat (- n)) l.

Definition process_training_data (self_play_data : SelfPlayData)
    (replay_length : option Z) : list (ndarray * ndarray * float) :=
  let training_data :=
    mbind (M := list) (fun '(index, game_log) =>
             map (fun ex => (ex_state ex, ex_probs ex, ex_z ex)) game_log)
          self_play_data in
  match replay_length with
  | Some n => slice_last n training_data
  | None => training_data
  end.

(** *** The evaluation harness *)

Definition evaluate_estimators_in_both_positions (game : Game)
    (estimator1 estimator2 : EstimateFn) (mcts_iters : Z) (c_puct : float)
    (num_evaluate_games : Z) (tau : float) : stateful World (Z * Z * Z) :=
  (* Evaluate estimator1 vs estimator2. *)
  p1 ← lift (MCTSPlayer [PyGame game; PyEstimateFn estimator1;
                          PyInt mcts_iters; PyFloat c_puct]
                         [("tau"%string, PyFloat tau)]);
  p2 ← lift (MCTSPlayer [PyGame game; PyEstimateFn estimator2;
                          PyInt mcts_iters; PyFloat c_puct]
                         [("tau"%string, PyFloat tau)]);
  let players : gmap Z PlayerObj := <[2 := p2]> {[1 := p1]} in
  player1_results ← with_rng (evaluate game players num_evaluate_games);
  wins1 ← lift (getitem player1_results 1);
  wins2 ← lift (getitem player1_results (-1));
  draws ← lift (getitem player1_results 0);
  (* Evaluate estimator2 vs estimator1. *)
  p1 ← lift (MCTSPlayer [PyGame game; PyEstimateFn estimator2;
                          PyInt mcts_iters; PyFloat c_puct]
                         [("tau"%string, PyFloat tau)]);
  p2 ← lift (MCTSPlayer [PyGame game; PyEstimateFn estimator1;
                          PyInt mcts_iters; PyFloat c_puct]
                         [("tau"%string, PyFloat tau)]);
  let players : gmap Z PlayerObj := <[2 := p2]> {[1 := p1]} in
  player1_results ← with_rng (evaluate game players num_evaluate_games);
  w1 ← lift (getitem player1_results (-1));
  let wins1 := wins1 + w1 in
  w2 ← lift (getitem player1_results 1);
  let wins2 := wins2 + w2 in
  d ← lift (getitem player1_results 0);
  let draws := draws + d in
  mret (wins1, wins2, draws).

Definition evaluate_mcts_against_random_player (game : Game)
    (estimator : EstimateFn) (mcts_iters : Z) (c_puct : float)
    (num_evaluate_games : Z) (tau : float) : stateful World (Z * Z * Z) :=
  p1 ← lift (MCTSPlayer [PyGame game; PyEstimateFn estimator;
                          PyInt mcts_iters; PyFloat c_puct]
                         [("tau"%string, PyFloat tau)]);
  p2 ← lift (RandomPlayer [PyGame game] []);
  let players : gmap Z PlayerObj := <[2 := p2]> {[1 := p1]} in
  player1_results ← with_rng (evaluate game players num_evaluate_games);
  wins1 ← lift (getitem player1_results 1);
  wins2 ← lift (getitem player1_results (-1));
  draws ← lift (getitem player1_results 0);
  p1 ← lift (RandomPlayer [PyGame game] []);
  p2 ← lift (MCTSPlayer [PyGame game; PyEstimateFn estimator;
                          PyInt mcts_iters; PyFloat c_puct]
                         [("tau"%string, PyFloat tau)]);
  let players : gmap Z PlayerObj := <[2 := p2]> {[1 := p1]} in
  player1_results ← with_rng (evaluate game players num_evaluate_games);
  w1 ← lift (getitem player1_results (-1));
  let wins1 := wins1 + w1 in
  w2 ← lift (getitem player1_results 1);
  let wins2 := wins2 + w2 in
  d ← lift (getitem player1_results 0);
  let draws := draws + d in
  mret (wins1, wins2, draws).

(** The literal [0.1]. *)
Definition tau_evaluation : float := fdiv (float_of_Z 1) (float_of_Z 10).

Definition evaluate_model (game : Game) (player1 player2 : Params)
    (mcts_iters : Z) (c_puct : float) (num_games : Z)
  : stateful World float :=
  '(wins1, wins2, draws) ←
    evaluate_estimators_in_both_positions game
      (create_estimate_fn player1) (create_estimate_fn player2)
      mcts_iters c_puct num_games tau_evaluation;
  training_win_rate ← lift (truediv wins2 (wins1 + wins2 + draws));
  (* Also evaluate against a random player *)
  _ ← evaluate_mcts_against_random_player game
        (create_estimate_fn player2) mcts_iters c_puct num_games
        tau_evaluation;
  mret training_win_rate.

(** *** train_alphago *)

Definition optimise (estimator : Params)
    (training_data : list (ndarray * ndarray * float))
    (batch_size training_iters : Z) : result (Params * list float) :=
  train estimator training_data batch_size training_iters.

(** The arguments of [train_alphago] after [game] and
    [create_estimator]. *)
Record Config := {
  self_play_iters : Z;
  training_iters : Z;
  checkpoint_path : string;
  alphago_steps : Z;
  evaluate_every : Z;
  batch_size : Z;
  mcts_iters : Z;
  c_puct : float;
  replay_length : Z;
  num_evaluate_games : Z;
  win_rate : float;
  restore_step : option Z;
  self_play_file_path : option string;
}.

(** The variables that live across the rounds of the loop. *)
Record Players := {
  self_play_player : Params;
  training_player : Params;
  all_losses : list (list float);
}.

(** [if restore_step:] holds for an integer other than 0. *)
Definition truthy (restore_step : option Z) : option Z :=
  match restore_step with
  | Some r => if decide (r = 0) then None else Some r
  | None => None
  end.

(** [a % b] *)
Definition py_mod (a b : Z) : result Z :=
  if decide (b = 0) then Raise ZeroDivisionError else Ok (a `mod` b).

(** A configuration with another [restore_step]. *)
Definition with_restore_step (cfg : Config) (r : option Z) : Config :=
  {| self_play_iters := self_play_iters cfg;
     training_iters := training_iters cfg;
     checkpoint_path := checkpoint_path cfg;
     alphago_steps := alphago_steps cfg;
     evaluate_every := evaluate_every cfg;
     batch_size := batch_size cfg;
     mcts_iters := mcts_iters cfg;
     c_puct := c_puct cfg;
     replay_length := replay_length cfg;
     num_evaluate_games := num_evaluate_games cfg;
     win_rate := win_rate cfg;
     restore_step := r;
     self_play_file_path := self_play_file_path cfg |}.

(** One pass through the body of [for alphago_step in range(...)]. *)
Definition alphago_round (fuel : nat) (game : Game)
    (create_estimator : stateful RNG Params) (cfg : Config)
    (alphago_step : Z) (p : Players) : stateful World Players :=
  self_play_data ←
    generate_self_play_data fuel game (self_play_player p) (mcts_iters cfg)
      (c_puct cfg) (self_play_iters cfg) (self_play_file_path cfg);
  let training_data :=
    process_training_data self_play_data (Some (replay_length cfg)) in
  '(trained, losses) ←
    lift (optimise (training_player p) training_data (batch_size cfg)
            (training_iters cfg));
  let all_losses := all_losses p ++ [losses] in
  (* Evaluate the players and choose the best. *)
  r ← lift (py_mod alphago_step (evaluate_every cfg));
  if decide (r = 0) then
    training_win_rate ←
      evaluate_model game (self_play_player p) trained (mcts_iters cfg)
        (c_puct cfg) (num_evaluate_games cfg);
    _ ← checkpoint_model trained alphago_step (checkpoint_path cfg);
    if fltb (win_rate cfg) training_win_rate then
      _ ← with_rng create_estimator;
      let restore_path :=
        compute_checkpoint_name alphago_step (checkpoint_path cfg) in
      restored ← restore restore_path;
      mret {| self_play_player := restored; training_player := trained;
              all_losses := all_losses |}
    else
      mret {| self_play_player := self_play_player p;
              training_player := trained; all_losses := all_losses |}
  else
    mret {| self_play_player := self_play_player p;
            training_player := trained; all_losses := all_losses |}.

Fixpoint alphago_rounds (fuel : nat) (game : Game)
    (create_estimator : stateful RNG Params) (cfg : Config)
    (steps : list Z) (p : Players) : stateful World Players :=
  match steps with
  | [] => mret p
  | alphago_step :: steps =>
      p ← alphago_round fuel game create_estimator cfg alphago_step p;
      alphago_rounds fuel game create_estimator cfg steps p
  end.

(** [range(a, b)] *)
Definition range (a b : Z) : list Z :=
  map (fun i => a + Z.of_nat i) (seq 0 (Z.to_nat (b - a))).

Definition train_alphago_players (fuel : nat) (game : Game)
    (create_estimator : stateful RNG Params) (cfg : Config)
  : stateful World Players :=
  self_play_player ← with_rng create_estimator;
  training_player ← with_rng create_estimator;
  '(self_play_player, training_player) ←
    match truthy (restore_step cfg) with
    | Some step =>
        let restore_path :=
          compute_checkpoint_name step (checkpoint_path cfg) in
        sp ← restore restore_path;
        tp ← restore restore_path;
        mret (sp, tp)
    | None => mret (self_play_player, training_player)
    end;
  let initial_step :=
    match truthy (restore_step cfg) with
    | Some step => step + 1
    | None => 0
    end in
  alphago_rounds fuel game create_estimator cfg
    (range initial_step (initial_step + alphago_steps cfg))
    {| self_play_player := self_play_player;
       training_player := training_player;
       all_losses := [] |}.

(** [train_alphago] returns [all_losses]; [train_alphago_players] also
    shows the two estimators the loop ends with. *)
Definition train_alphago (fuel : nat) (game : Game)
    (create_estimator : stateful RNG Params) (cfg : Config)
  : stateful World (list (list float)) :=
  p ← train_alphago_players fuel game create_estimator cfg;
  mret (all_losses p).

(** ** player.py *)

(** Binding of a call's arguments to the parameters of a function (after
    [self]): positional arguments first, keywords for the parameters that
    remain; an excess positional argument, a keyword that names no
    remaining parameter and a parameter left without value are all
    [TypeError]s. *)
Definition bind_args (params : list string) (args : list pyval)
    (kwargs : list (string * pyval)) : result (list pyval) :=
  if decide (length args <= length params)%nat then
    let rest := drop (length args) params in
    if forallb (fun kv => bool_decide (kv.1 ∈ rest)) kwargs then
      vals ← mapM (fun name =>
                      match list_find (fun kv => kv.1 = name) kwargs with
                      | Some (_, (_, v)) => Ok v
                      | None => Raise TypeError
                      end) rest;
      Ok (args ++ vals)
    else Raise TypeError
  else Raise TypeError.

(** Objects of the classes [RandomPlayer] and [MCTSPlayer], with the
    attributes their [__init__] sets. *)
Inductive SrcPlayer :=
  | RandomPlayer_obj (player_no game : pyval)
  | MCTSPlayer_obj (player_no game estimator mcts_iters c_puct : pyval).

(** [AbstractPlayer.__init__(self, player_no, game)], inherited by
    [RandomPlayer]. *)
Definition RandomPlayer_init (args : list pyval)
    (kwargs : list (string * pyval)) : result SrcPlayer :=
  vals ← bind_args ["player_no"; "game"]%string args kwargs;
  match vals with
  | [player_no; game] => Ok (RandomPlayer_obj player_no game)
  | _ => Raise TypeError
  end.

(** [MCTSPlayer.__init__(self, player_no, game, estimator, mcts_iters,
    c_puct)] *)
Definition MCTSPlayer_init (args : list pyval)
    (kwargs : list (string * pyval)) : result SrcPlayer :=
  vals ← bind_args
            ["player_no"; "game"; "estimator"; "mcts_iters"; "c_puct"]%string
            args kwargs;
  match vals with
  | [player_no; game; estimator; mcts_iters; c_puct] =>
      Ok (MCTSPlayer_obj player_no game estimator mcts_iters c_puct)
  | _ => Raise TypeError
  end.

(** The module [player] as the sources have it. *)
Definition player_py : PlayerModule :=
  {| PlayerObj := SrcPlayer;
     MCTSPlayer := MCTSPlayer_init;
     RandomPlayer := RandomPlayer_init |}.

(** [self.game] *)
Definition attr_game (self : SrcPlayer) : pyval :=
  match self with
  | RandomPlayer_obj _ game => game
  | MCTSPlayer_obj _ game _ _ _ => game
  end.

(** [RandomPlayer.action_probabilities(self, game_state)]: [self.game]
    has to be an object with [compute_next_states]; the comprehension
    divides once per action, so not at all for an empty dictionary. *)
Definition RandomPlayer_action_probabilities (self : SrcPlayer)
    (game_state : State) : result Probs :=
  match attr_game self with
  | PyGame game =>
      next_states ← compute_next_states game game_state;
      mapM (fun '(action, _) =>
              p ← truediv 1 (Z.of_nat (length next_states));
              Ok (action, p)) next_states
  | _ => Raise AttributeError
  end.

(** ** The search, from the specification *)

(** Modelled from the spec: the function [mcts] of the module
    [mcts_tree], which is not part of the sources: a fixed number of PUCT
    simulations (selection, expansion or exact terminal value, backup with
    one sign change per ply), then the visit counts of the root's children
    raised to [1/tau] and normalised, an action that was never visited
    getting probability 0.  A root without children is expanded before
    the simulations, so that every simulation goes through one of the
    root's edges: the spec has one iteration on a state with one legal
    action return probability 1 for it.  [fpow] stands for the power
    function of the floating-point library and [eps] for the threshold
    below which [tau] selects greedily; the spec names neither. *)
Section Search.
Variables (game : Game) (estimator : EstimateFn) (c_puct : float).
Variable fpow : float -> float -> float.
Variable eps : float.

Definition Qvalue (c : MCTSNode) : float :=
  if decide (N c = 0) then fzero else fdiv (W c) (float_of_Z (N c)).

Definition visit_total (l : list (Action * MCTSNode)) : Z :=
  foldr (fun ac s => N ac.2 + s) 0 l.

(** [Q + c_puct * P * sqrt(N(s)) / (1 + N(s, a))] *)
Definition puct (total : Z) (c : MCTSNode) : float :=
  fadd (Qvalue c)
       (fdiv (fmul (fmul c_puct (prior c)) (fsqrt (float_of_Z total)))
             (float_of_Z (1 + N c))).

(** The first maximal entry in the fixed order of the actions. *)
Fixpoint argmax (l : list (Action * float)) (best : Action * float)
  : Action :=
  match l with
  | [] => best.1
  | (a, x) :: l => if fltb best.2 x then argmax l (a, x) else argmax l best
  end.

Definition select (l : list (Action * MCTSNode)) : result Action :=
  let total := visit_total l in
  match map (fun ac => (ac.1, puct total ac.2)) l with
  | [] => Raise IllegalStateError
  | b :: l => Ok (argmax l b)
  end.

Definition expand (node : MCTSNode) (priors : gmap Action float)
  : result MCTSNode :=
  if is_terminal node then Raise IllegalStateError
  else
    match children node with
    | _ :: _ => Raise IllegalStateError
    | [] =>
        next ← compute_next_states game (game_state node);
        ch ← mapM (fun '(a, s) =>
                     p ← getitem priors a;
                     Ok (a, {| game_state := s;
                               node_player := which_player game s;
                               is_terminal := false;
                               N := 0; W := fzero; prior := p;
                               children := [] |})) next;
        Ok {| game_state := game_state node;
              node_player := node_player node;
              is_terminal := false;
              N := N node; W := W node; prior := prior node;
              children := ch |}
    end.

Definition terminal_value (s : State) (p : Player) : result float :=
  u ← utility game s;
  getitem u p.

Definition backup (c : MCTSNode) (v : float) : MCTSNode :=
  {| game_state := game_state c; node_player := node_player c;
     is_terminal := is_terminal c;
     N := N c + 1; W := fadd (W c) v; prior := prior c;
     children := children c |}.

(** One simulation from [node]: the node as the simulation leaves it and
    the value for the player to move in it. *)
Fixpoint simulate (node : MCTSNode) : result (MCTSNode * float) :=
  match node with
  | mkNode s p term n w pr ch =>
      if term then
        v ← terminal_value s p;
        Ok (node, v)
      else
        match ch with
        | [] =>
            if is_terminal_state game s then
              v ← terminal_value s p;
              Ok (mkNode s p true n w pr [], v)
            else
              let '(priors, value) := estimator s in
              node ← expand (mkNode s p term n w pr []) priors;
              Ok (node, value)
        | _ :: _ =>
            match select ch with
            | Ok a =>
                '(ch, v) ←
                  (fix descend (l : list (Action * MCTSNode))
                     : result (list (Action * MCTSNode) * float) :=
                     match l with
                     | [] => Raise KeyError
                     | (b, c) :: l =>
                         if decide (a = b) then
                           '(c, v) ← simulate c;
                           Ok ((b, backup c (fopp v)) :: l, fopp v)
                         else
                           '(l, v) ← descend l;
                           Ok ((b, c) :: l, v)
                     end) ch;
                Ok (mkNode s p term n w pr ch, v)
            | Raise e => Raise e
            | OutOfFuel => OutOfFuel
            end
        end
  end.

Fixpoint simulations (n : nat) (node : MCTSNode) : result MCTSNode :=
  match n with
  | O => Ok node
  | S n =>
      '(node, _) ← simulate node;
      simulations n node
  end.

Definition greedy_probabilities (ch : list (Action * MCTSNode)) : Probs :=
  let top := foldr (fun ac m => Z.max (N ac.2) m) 0 ch in
  let ties := length (filter (fun ac => N ac.2 = top) ch) in
  map (fun ac =>
         (ac.1, if decide (N ac.2 = top /\ N ac.2 <> 0)
                then fdiv fone (float_of_Z (Z.of_nat ties)) else fzero)) ch.

Definition action_probabilities (tau : float)
    (ch : list (Action * MCTSNode)) : Probs :=
  if fltb tau eps then greedy_probabilities ch
  else
    let x := fun c => fpow (float_of_Z (N c)) (fdiv fone tau) in
    let total := foldl (fun s ac => fadd s (x ac.2)) fzero ch in
    map (fun ac =>
           (ac.1, if decide (N ac.2 = 0) then fzero
                  else fdiv (x ac.2) total)) ch.

Definition mcts_spec (node : MCTSNode) (mcts_iters : Z) (tau : float)
  : result (MCTSNode * Probs) :=
  if is_terminal_state game (game_state node) then Raise InvalidStateError
  else
    node ← match children node with
           | [] => expand node (estimator (game_state node)).1
           | _ :: _ => Ok node
           end;
    node ← simulations (Z.to_nat mcts_iters) node;
    Ok (node, action_probabilities tau (children node)).

End Search.

End Alphago.

(** ** A concrete instance: Nim *)

(** A small game and stand-ins for the collaborators, on which the
    definitions above are run.  A state is the array [[stones; mover]];
    an action takes one or two stones; whoever takes the last stone
    wins. *)
Module Nim.

(** The integer a float holds, when it holds one. *)
Definition float_to_Z (x : float) : option Z :=
  match x with
  | S754_zero _ => Some 0
  | S754_finite s m e =>
      let v := if s then Z.neg m else Z.pos m in
      if decide (0 <= e) then Some (v * 2 ^ e)
      else if decide (v `mod` 2 ^ (- e) = 0) then Some (v / 2 ^ (- e))
      else None
  | _ => None
  end.

Definition universe : Universe :=
  {| State := ndarray; as_array := id; Action := Z; Params := Z; RNG := Z |}.
#[local] Existing Instance universe.

Definition encode (stones mover : Z) : State :=
  [float_of_Z stones; float_of_Z mover].

Definition decode (s : State) : option (Z * Z) :=
  match s with
  | [a; b] =>
      stones ← float_to_Z a;
      mover ← float_to_Z b;
      Some (stones, mover)
  | _ => None
  end.

Definition other (mover : Z) : Z := 3 - mover.

Definition nim (stones : Z) : Game :=
  {| initial_state := encode stones 1;
     which_player s :=
       match decode s with Some (_, mover) => mover | None => 1 end;
     is_terminal_state s :=
       match decode s with
       | Some (stones, _) => bool_decide (stones = 0)
       | None => false
       end;
     compute_next_states s :=
       match decode s with
       | Some (stones, mover) =>
           if decide (stones <= 0) then Raise InvalidStateError
           else if decide (stones = 1)
           then Ok [(1, encode 0 (other mover))]
           else Ok [(1, encode (stones - 1) (other mover));
                    (2, encode (stones - 2) (other mover))]
       | None => Raise InvalidStateError
       end;
     utility s :=
       match decode s with
       | Some (stones, mover) =>
           if decide (stones = 0)
           then Ok (<[other mover := float_of_Z 1]>
                      {[mover := float_of_Z (-1)]})
           else Raise InvalidStateError
       | None => Raise InvalidStateError
       end;
     game_action_indices := <[2 := 1]> {[1 := 0]} |}.

(** An estimator that knows nothing: uniform priors, value 0; training
    counts the calls. *)
Definition half : float := fdiv (float_of_Z 1) (float_of_Z 2).

Definition estimator : Estimator :=
  {| create_estimate_fn _ := fun _ => (<[2 := half]> {[1 := half]}, fzero);
     train p _ _ _ := Ok (p + 1, []) |}.
#[local] Existing Instance estimator.

(** [x ** y] for the exponents that occur here, the non-negative
    integers, by repeated multiplication. *)
Definition fpow (x y : float) : float :=
  match float_to_Z y with
  | Some k =>
      if decide (0 <= k) then Nat.iter (Z.to_nat k) (fmul x) fone
      else S754_nan
  | None => S754_nan
  end.

Definition eps : float := fdiv (float_of_Z 1) (float_of_Z 1000).

(** A linear congruential source; a draw in [[0, 1)] selects the first
    action whose cumulative probability exceeds it. *)
Definition lcg (g : Z) : Z := (1103515245 * g + 12345) `mod` 2147483648.

Fixpoint pick (u acc : float) (fallback : Z) (items : list (Z * float))
  : Z :=
  match items with
  | [] => fallback
  | (a, p) :: items =>
      let acc := fadd acc p in
      if fltb u acc then a else pick u acc a items
  end.

Definition sample (probs : list (Z * float)) : stateful Z Z :=
  fun g =>
    match probs with
    | [] => (Raise ValueError, g)
    | (a, _) :: _ =>
        let g' := lcg g in
        (Ok (pick (fdiv (float_of_Z g') (float_of_Z 2147483648))
                  fzero a probs), g')
    end.

(** A harness in which the random source decides each match: player 1
    wins every game or loses every game. *)
Definition decided {P : Type} (players : gmap Z P) (num_games : Z)
  : stateful Z (gmap Z Z) :=
  fun g =>
    let g' := lcg g in
    (Ok (if decide ((g' `div` 65536) `mod` 2 = 0)
         then <[0 := 0]> (<[-1 := 0]> {[1 := num_games]})
         else <[0 := 0]> (<[-1 := num_games]> {[1 := 0]})), g').

(** The imports, with the player module of the sources. *)
Definition imports_src : @Imports universe (@player_py universe) :=
  @Build_Imports universe (@player_py universe)
    (fun node game estimator mcts_iters c_puct tau =>
       mcts_spec game estimator c_puct fpow eps node mcts_iters tau)
    sample
    (fun _ => decided).

(** A player module whose constructors have the signatures the calls in
    [alphago.py] are written for: [MCTSPlayer(game, estimator, mcts_iters,
    c_puct, tau)] and [RandomPlayer(game)]. *)
Definition player_tau : @PlayerModule universe :=
  {| PlayerObj := list pyval;
     MCTSPlayer :=
       bind_args ["game"; "estimator"; "mcts_iters"; "c_puct"; "tau"]%string;
     RandomPlayer := bind_args ["game"]%string |}.

Definition imports_tau : @Imports universe player_tau :=
  @Build_Imports universe player_tau
    (fun node game estimator mcts_iters c_puct tau =>
       mcts_spec game estimator c_puct fpow eps node mcts_iters tau)
    sample
    (fun _ => decided).

Definition world0 : World := {| rng := 40; files := ∅ |}.

(** [create_estimator()]: the initial parameters are a draw. *)
Definition create_estimator : stateful Z Z :=
  fun g => let g' := lcg g in (Ok g', g').

(** A configuration with the defaults of [train_alphago] for
    [evaluate_every], [batch_size], [c_puct] and [win_rate], and small
    numbers elsewhere. *)
Definition config (alphago_steps evaluate_every : Z)
    (restore_step : option Z) : Config :=
  {| self_play_iters := 2;
     training_iters := 1;
     checkpoint_path := "ckpt/";
     alphago_steps := alphago_steps;
     evaluate_every := evaluate_every;
     batch_size := 32;
     mcts_iters := 3;
     c_puct := fone;
     replay_length := 100000;
     num_evaluate_games := 2;
     win_rate := fdiv (float_of_Z 55) (float_of_Z 100);
     restore_step := restore_step;
     self_play_file_path := None |}.

(** A world in which round 2 has left its checkpoint. *)
Definition world2 : World :=
  {| rng := 42; files := {[ "ckpt/2.checkpoint"%string := Checkpoint 7 ]} |}.


(** A finished game of two states, and what the search reported. *)
Definition short_game : Caller :=
  {| states_ := [encode 2 1; encode 0 2];
     actions_ := [2];
     action_probs_ := [[(1, half); (2, half)]];
     action_indices := game_action_indices (nim 2) |}.

(** A trajectory whose first state holds +infinity. *)
Definition infinite_game : Caller :=
  {| states_ := [[S754_infinity false; float_of_Z 1]; encode 0 2];
     actions_ := [1];
     action_probs_ := [[(1, fone)]];
     action_indices := game_action_indices (nim 2) |}.

(** What one simulation from the start of [nim 2] reports at [tau = 1]:
    the second action was never visited. *)
Definition one_sided : list (Z * float) := [(1, fone); (2, fzero)].

Definition estimate : State -> gmap Z float * float :=
  create_estimate_fn (0 : Z).

Definition players0 : Players :=
  {| self_play_player := 5; training_player := 6; all_losses := [] |}.

Definition world43 : World := {| rng := 43; files := ∅ |}.


(** A trajectory with more actions and probability maps than states to
    pair them with. *)
Definition ragged_game : Caller :=
  {| states_ := [encode 2 1; encode 0 2];
     actions_ := [2; 1; 1];
     action_probs_ := [[(1, half); (2, half)]; [(1, fone)]];
     action_indices := game_action_indices (nim 2) |}.

Definition empty_game : Caller :=
  {| states_ := [];
     actions_ := [2];
     action_probs_ := [[(1, half); (2, half)]];
     action_indices := game_action_indices (nim 2) |}.

(** Index dictionaries that send two actions to one entry, one of them
    from the end. *)
Definition colliding_indices : gmap Z Z := <[2 := -2]> {[1 := 0]}.

Definition random_player : SrcPlayer :=
  RandomPlayer_obj (PyInt 1) (PyGame (nim 2)).
End Nim.

(** * Properties *)

(** ** The outcome monads *)

Lemma result_bind_Ok {A B} (k : A -> result B) (r : result A) (b : B) :
  r ≫= k = Ok b <-> exists a, r = Ok a /\ k a = Ok b.
Proof.
  split.
  - destruct r as [a| |]; simpl; intros Hk; try discriminate. by exists a.
  - intros (a & -> & Hk). exact Hk.
Qed.

Lemma stateful_bind_Ok {S A B} (m : stateful S A) (k : A -> stateful S B)
    (s s' : S) (b : B) :
  (m ≫= k) s = (Ok b, s') <->
  exists a s1, m s = (Ok a, s1) /\ k a s1 = (Ok b, s').
Proof.
  unfold mbind, stateful_bind, sbind. split.
  - destruct (m s) as [[a| |] s1]; intros Hk; try discriminate.
    by exists a, s1.
  - intros (a & s1 & -> & Hk). exact Hk.
Qed.

Lemma stateful_bind_Ok_fst {S A B} (m : stateful S A) (k : A -> stateful S B)
    (s : S) (b : B) :
  ((m ≫= k) s).1 = Ok b ->
  exists a s1, m s = (Ok a, s1) /\ (k a s1).1 = Ok b.
Proof.
  unfold mbind, stateful_bind, sbind.
  destruct (m s) as [[a| |] s1]; simpl; intros Hk; try discriminate.
  by exists a, s1.
Qed.

Lemma stateful_bind_snd {S A B} (m : stateful S A) (k : A -> stateful S B)
    (s : S) :
  ((m ≫= k) s).2 =
  match m s with
  | (Ok a, s1) => (k a s1).2
  | (_, s1) => s1
  end.
Proof.
  unfold mbind, stateful_bind, sbind. by destruct (m s) as [[a| |] s1].
Qed.

(** ** Arrays *)

Lemma setitem_length v i x v' :
  setitem v i x = Ok v' -> length v' = length v.
Proof.
  unfold setitem. repeat case_decide; intros [= <-];
    by rewrite length_insert.
Qed.

Lemma setitem_nonneg v i x :
  0 <= i < Z.of_nat (length v) ->
  setitem v i x = Ok (<[Z.to_nat i := x]> v).
Proof. intros Hi. unfold setitem. by rewrite decide_True. Qed.

Lemma setitem_in_range v i x :
  - Z.of_nat (length v) <= i < Z.of_nat (length v) ->
  exists v', setitem v i x = Ok v'.
Proof.
  intros Hi. unfold setitem. case_decide; [eauto|].
  rewrite decide_True; [eauto | lia].
Qed.

Lemma zip3_length {A B C} (l1 : list A) (l2 : list B) (l3 : list C) :
  length l2 = length l1 -> length l3 = length l1 ->
  length (zip3 l1 l2 l3) = length l1.
Proof.
  revert l2 l3. induction l1 as [|a l1 IH]; intros [|b l2] [|c l3];
    simpl; intros H2 H3; try done.
  f_equal. apply IH; congruence.
Qed.

Lemma zip3_lookup {A B C} (l1 : list A) (l2 : list B) (l3 : list C) i a b c :
  zip3 l1 l2 l3 !! i = Some (a, b, c) ->
  l1 !! i = Some a /\ l2 !! i = Some b /\ l3 !! i = Some c.
Proof.
  revert l2 l3 i. induction l1 as [|a' l1 IH]; intros [|b' l2] [|c' l3] i;
    simpl; try done.
  destruct i as [|i]; simpl.
  - by intros [= -> -> ->].
  - apply IH.
Qed.

Lemma zip3_states {A B C} (l1 : list A) (l2 : list B) (l3 : list C) :
  length l2 = length l1 -> length l3 = length l1 ->
  map (fun t => t.1.1) (zip3 l1 l2 l3) = l1.
Proof.
  revert l2 l3. induction l1 as [|a l1 IH]; intros [|b l2] [|c l3];
    simpl; intros H2 H3; try done.
  f_equal. apply IH; congruence.
Qed.

Lemma zip3_probs_elem {A B C} (l1 : list A) (l2 : list B) (l3 : list C) t :
  t ∈ zip3 l1 l2 l3 -> t.1.1 ∈ l1 /\ t.2 ∈ l3.
Proof.
  revert l2 l3. induction l1 as [|a l1 IH]; intros [|b l2] [|c l3];
    simpl; try (by intros ?%elem_of_nil).
  intros [->|Ht]%elem_of_cons; simpl.
  - split; apply list_elem_of_here.
  - destruct (IH _ _ Ht). split; by apply list_elem_of_further.
Qed.

(** ** The example builder *)

Section ExampleBuilder.
Context `{U : Universe}.
Implicit Types (game : Game) (c : Caller) (outcome : gmap Z float).
Implicit Types (indices : gmap Action Z).

Lemma pop_states_app c front final :
  states_ c = front ++ [final] ->
  pop_states c =
    (Ok final, {| states_ := front; actions_ := actions_ c;
                  action_probs_ := action_probs_ c;
                  action_indices := action_indices c |}).
Proof.
  intros Hs. unfold pop_states.
  by rewrite Hs, last_snoc, removelast_last.
Qed.

Lemma pop_states_Ok c final c' :
  pop_states c = (Ok final, c') ->
  last (states_ c) = Some final /\
  c' = {| states_ := removelast (states_ c); actions_ := actions_ c;
          action_probs_ := action_probs_ c;
          action_indices := action_indices c |}.
Proof.
  unfold pop_states. destruct (last (states_ c)); intros [= <- <-]; done.
Qed.

Lemma fill_probs_length indices items v v' :
  fill_probs indices items v = Ok v' -> length v' = length v.
Proof.
  revert v. induction items as [|[a prob] items IH]; simpl; intros v.
  - by intros [= <-].
  - intros (i & _ & (v1 & Hset & Hrest)%result_bind_Ok)%result_bind_Ok.
    rewrite (IH _ Hrest). by eapply setitem_length.
Qed.

Lemma fill_probs_total indices items v :
  (forall a p, (a, p) ∈ items ->
     exists i, indices !! a = Some i /\
               - Z.of_nat (length v) <= i < Z.of_nat (length v)) ->
  exists v', fill_probs indices items v = Ok v'.
Proof.
  revert v. induction items as [|[a prob] items IH]; simpl; intros v Hin.
  - eauto.
  - destruct (Hin a prob) as (i & Hi & Hrange); [apply list_elem_of_here|].
    unfold getitem. rewrite Hi. simpl.
    destruct (setitem_in_range v i prob Hrange) as [v1 Hv1].
    rewrite Hv1. simpl. apply IH. intros a' p' Hin'.
    rewrite (setitem_length _ _ _ _ Hv1).
    apply (Hin a' p'). by apply list_elem_of_further.
Qed.

(** What [build_examples] returns is its accumulator followed by one
    example per tuple, in order. *)
Lemma build_examples_Ok game outcome indices l acc data :
  build_examples game outcome indices l acc = Ok data ->
  exists exs, data = acc ++ exs /\
    Forall2 (fun sap ex => build_example game outcome indices sap = Ok ex)
            l exs.
Proof.
  revert acc. induction l as [|sap l IH]; simpl; intros acc.
  - intros [= <-]. exists []. by rewrite app_nil_r.
  - intros (ex & Hex & Hrest)%result_bind_Ok.
    destruct (IH _ Hrest) as (exs & -> & Hall).
    exists (ex :: exs). split; [by rewrite <- app_assoc|].
    by constructor.
Qed.

Lemma build_examples_total game outcome indices l acc :
  Forall (fun sap => exists ex,
            build_example game outcome indices sap = Ok ex) l ->
  exists data, build_examples game outcome indices l acc = Ok data.
Proof.
  intros Hall. revert acc.
  induction Hall as [|sap l [ex Hex] _ IH]; simpl; intros acc; [eauto|].
  rewrite Hex. simpl. apply IH.
Qed.

Lemma build_example_Ok game outcome indices state action probs ex :
  build_example game outcome indices (state, action, probs) = Ok ex ->
  outcome !! which_player game state = Some (ex_z ex) /\
  dense_policy indices probs = Ok (ex_probs ex) /\
  ex_state ex = nan_to_num (as_array state) /\
  ex_action ex = action.
Proof.
  unfold build_example.
  intros (z & Hz & (pv & Hpv & [= <-])%result_bind_Ok)%result_bind_Ok.
  simpl. repeat split; [|done].
  unfold getitem in Hz. by destruct (outcome !! _); simplify_eq.
Qed.

(** The call, taken apart: the pop, the utility, the loop. *)
Lemma process_self_play_data_Ok game c data :
  (process_self_play_data game c).1 = Ok data ->
  exists final outcome,
    last (states_ c) = Some final /\
    utility game final = Ok outcome /\
    Forall2 (fun sap ex =>
               build_example game outcome (action_indices c) sap = Ok ex)
            (zip3 (removelast (states_ c)) (actions_ c) (action_probs_ c))
            data.
Proof.
  unfold process_self_play_data.
  intros (final & c1 & Hpop & Hk)%stateful_bind_Ok_fst.
  apply pop_states_Ok in Hpop as [Hlast ->].
  apply stateful_bind_Ok_fst in Hk as (outcome & c2 & Hu & Hk).
  unfold lift in Hu. injection Hu as Hu <-.
  apply stateful_bind_Ok_fst in Hk as (c3 & c4 & Hget & Hk).
  unfold sget in Hget. injection Hget as <- <-.
  unfold lift in Hk. simpl in Hk.
  apply build_examples_Ok in Hk as (exs & -> & Hall).
  by exists final, outcome.
Qed.

Lemma process_self_play_data_app game c front final outcome :
  states_ c = front ++ [final] ->
  utility game final = Ok outcome ->
  (process_self_play_data game c).1 =
  build_examples game outcome (action_indices c)
    (zip3 front (actions_ c) (action_probs_ c)) [].
Proof.
  intros Hs Hu. unfold process_self_play_data, mbind, stateful_bind, sbind.
  rewrite (pop_states_app _ _ _ Hs). unfold lift at 1. by rewrite Hu.
Qed.

Lemma dense_policy_total indices probs :
  (forall a p, (a, p) ∈ probs ->
     exists i, indices !! a = Some i /\
       - Z.of_nat (size indices) <= i < Z.of_nat (size indices)) ->
  exists v, dense_policy indices probs = Ok v.
Proof.
  intros Hin. apply fill_probs_total. unfold zeros.
  by rewrite length_replicate.
Qed.

Lemma removelast_snoc_last {A} (l : list A) :
  l = removelast l ++ option_list (last l).
Proof.
  destruct l as [|x l _] using rev_ind; [done|].
  by rewrite last_snoc, removelast_last.
Qed.

(** C6: for a completed trajectory of k states, the last of which the game
    gives a utility for, with one action and one probability map per
    earlier state, [process_self_play_data] returns exactly k-1 examples:
    one per non-terminal state, in order, and none for the last state. *)
Theorem process_self_play_data_length game c front final outcome :
  states_ c = front ++ [final] ->
  length (actions_ c) = length front ->
  length (action_probs_ c) = length front ->
  utility game final = Ok outcome ->
  (forall s, s ∈ front -> is_Some (outcome !! which_player game s)) ->
  (forall probs a p, probs ∈ action_probs_ c -> (a, p) ∈ probs ->
     exists i, action_indices c !! a = Some i /\
       - Z.of_nat (size (action_indices c)) <= i
         < Z.of_nat (size (action_indices c))) ->
  exists data,
    (process_self_play_data game c).1 = Ok data /\
    length data = (length (states_ c) - 1)%nat /\
    map ex_state data = map (fun s => nan_to_num (as_array s)) front.
Proof.
  intros Hs Ha Hp Hu Hout Hidx.
  rewrite (process_self_play_data_app _ _ _ _ _ Hs Hu).
  destruct (build_examples_total game outcome (action_indices c)
              (zip3 front (actions_ c) (action_probs_ c)) [])
    as [data Hdata].
  { apply Forall_forall. intros [[s a] probs] Hin.
    apply zip3_probs_elem in Hin as [Hs' Hp']. simpl in *.
    destruct (Hout s Hs') as [z Hz].
    destruct (dense_policy_total (action_indices c) probs) as [v Hv].
    { intros a' p'. by apply Hidx. }
    unfold build_example, getitem. rewrite Hz. simpl. rewrite Hv. simpl.
    eauto. }
  exists data. split; [done|].
  apply build_examples_Ok in Hdata as (exs & -> & Hall). simpl.
  split.
  - rewrite <- (Forall2_length _ _ _ Hall), zip3_length by done.
    rewrite Hs, length_app. simpl. lia.
  - rewrite <- (zip3_states front (actions_ c) (action_probs_ c)) at 1
      by done.
    rewrite map_map. clear -Hall.
    induction Hall as [|[[s a] probs] ex l exs Hex _ IH]; [done|].
    simpl. f_equal; [|done].
    by apply build_example_Ok in Hex as (_ & _ & -> & _).
Qed.

(** C7: in every example built from a trajectory, the outcome scalar is
    the utility of the trajectory's final state, as the game returns it,
    at the player to move in the example's state. *)
Theorem process_self_play_data_outcome game c data :
  (process_self_play_data game c).1 = Ok data ->
  exists final outcome,
    last (states_ c) = Some final /\
    utility game final = Ok outcome /\
    forall i ex, data !! i = Some ex ->
      exists s, removelast (states_ c) !! i = Some s /\
        outcome !! which_player game s = Some (ex_z ex).
Proof.
  intros (final & outcome & Hlast & Hu & Hall)%process_self_play_data_Ok.
  exists final, outcome. repeat split; try done.
  intros i ex Hex.
  destruct (Forall2_lookup_r _ _ _ _ _ Hall Hex)
    as ([[s a] probs] & Hsap & Hbuild).
  apply zip3_lookup in Hsap as (Hs & _ & _).
  apply build_example_Ok in Hbuild as (Hz & _).
  by exists s.
Qed.

(** C9, as the code has it: in every emitted example the state array has
    the length of the state's array and holds, entry by entry, 0 for a
    NaN, the largest finite value for +infinity, its opposite for
    -infinity and the entry itself otherwise, so every emitted entry is
    finite; the replacement itself is a total function and raises
    nothing. *)
Theorem process_self_play_data_nan_to_num game c data :
  (process_self_play_data game c).1 = Ok data ->
  forall i ex, data !! i = Some ex ->
    exists s, removelast (states_ c) !! i = Some s /\
      length (ex_state ex) = length (as_array s) /\
      forall j x, as_array s !! j = Some x ->
        exists y, ex_state ex !! j = Some y /\
          is_finite y = true /\
          (x = S754_nan -> y = fzero) /\
          (x = S754_infinity false -> y = float_max) /\
          (x = S754_infinity true -> y = fopp float_max) /\
          (is_finite x = true -> y = x).
Proof.
  intros (final & outcome & Hlast & Hu & Hall)%process_self_play_data_Ok.
  intros i ex Hex.
  destruct (Forall2_lookup_r _ _ _ _ _ Hall Hex)
    as ([[s a] probs] & Hsap & Hbuild).
  apply zip3_lookup in Hsap as (Hs & _ & _).
  apply build_example_Ok in Hbuild as (_ & _ & Hst & _).
  exists s. split; [done|]. rewrite Hst. unfold nan_to_num.
  split; [by rewrite length_map|].
  intros j x Hx. exists (nan_to_num1 x).
  split; [by rewrite list_lookup_fmap, Hx|].
  destruct x as [[]|[]| |[] m e]; simpl; repeat split; try done.
Qed.

(** C10: a call of [process_self_play_data] pops the caller's [states_]
    list in place, whatever the call then returns or raises: afterwards
    the list is the old one without its last element, and the lists of
    actions and of probability maps and the index dictionary are as they
    were. *)
Theorem process_self_play_data_pops game c :
  let c' := (process_self_play_data game c).2 in
  states_ c' = removelast (states_ c) /\
  states_ c = states_ c' ++ option_list (last (states_ c)) /\
  actions_ c' = actions_ c /\
  action_probs_ c' = action_probs_ c /\
  action_indices c' = action_indices c.
Proof.
  assert (Hc' : (process_self_play_data game c).2 =
                {| states_ := removelast (states_ c);
                   actions_ := actions_ c;
                   action_probs_ := action_probs_ c;
                   action_indices := action_indices c |}).
  { unfold process_self_play_data, mbind, stateful_bind, sbind.
    unfold pop_states.
    destruct (states_ c) as [|s l _] eqn:Hs using rev_ind.
    - simpl. destruct c; simpl in *; by subst.
    - rewrite last_snoc, removelast_last. unfold lift at 1.
      by destruct (utility game s). }
  simpl. rewrite Hc'. simpl. repeat split; try done.
  apply removelast_snoc_last.
Qed.

(** *** The dense policy vector *)

Lemma elem_of_nonzero_support (v : list float) (j : Z) :
  j ∈ nonzero_support v <->
  0 <= j /\ exists x, v !! Z.to_nat j = Some x /\ is_nonzero x = true.
Proof.
  unfold nonzero_support.
  rewrite elem_of_list_to_set, list_elem_of_filter, list_elem_of_fmap.
  split.
  - intros [Hnz (n & -> & Hn)]. split; [lia|].
    rewrite Nat2Z.id in *.
    destruct (v !! n) as [x|]; simpl in Hnz; [|done].
    exists x. split; [done|]. by apply Is_true_true.
  - intros [Hj (x & Hx & Hnz)]. split.
    + rewrite Hx. simpl. by apply Is_true_true.
    + exists (Z.to_nat j). split; [lia|].
      apply elem_of_seq. apply lookup_lt_Some in Hx. lia.
Qed.

Lemma elem_of_index_set indices (probs : list (Action * float)) (j : Z) :
  j ∈ index_set indices probs <->
  exists a p, (a, p) ∈ probs /\ indices !! a = Some j.
Proof.
  unfold index_set. rewrite elem_of_list_to_set, list_elem_of_omap.
  split.
  - intros ([a p] & Hin & Hj). by exists a, p.
  - intros (a & p & Hin & Hj). by exists (a, p).
Qed.

(** The loop that fills the vector, for indices that are in range and
    distinct: an entry named by an item holds that item's probability,
    every other entry is as it was. *)
Lemma fill_probs_lookup indices (items : list (Action * float))
    (v : list float) :
  NoDup items.*1 ->
  (forall a p, (a, p) ∈ items ->
     exists i, indices !! a = Some i /\ 0 <= i < Z.of_nat (length v)) ->
  (forall a b i, a ∈ items.*1 -> b ∈ items.*1 ->
     indices !! a = Some i -> indices !! b = Some i -> a = b) ->
  exists v',
    fill_probs indices items v = Ok v' /\
    length v' = length v /\
    (forall a p i, (a, p) ∈ items -> indices !! a = Some i ->
       v' !! Z.to_nat i = Some p) /\
    (forall j, (forall a p, (a, p) ∈ items ->
                  indices !! a <> Some (Z.of_nat j)) ->
       v' !! j = v !! j).
Proof.
  revert v. induction items as [|[a prob] items IH]; intros v Hnd Hin Hinj.
  - exists v. repeat split; try done. by intros a p i ?%elem_of_nil.
  - simpl in Hnd. apply NoDup_cons in Hnd as [Ha Hnd].
    destruct (Hin a prob) as (i & Hi & Hrange); [apply list_elem_of_here|].
    simpl. unfold getitem. rewrite Hi. simpl.
    rewrite setitem_nonneg by done. simpl.
    destruct (IH (<[Z.to_nat i := prob]> v)) as (v' & Hfill & Hlen & Hset & Hkeep).
    { done. }
    { intros b q Hb. rewrite length_insert.
      apply (Hin b q). by apply list_elem_of_further. }
    { intros b b' k Hb Hb'. apply Hinj; by apply list_elem_of_further. }
    exists v'. split; [done|]. rewrite length_insert in Hlen.
    split; [done|]. split.
    + intros b q k [[= -> ->]|Hb]%elem_of_cons Hk.
      * assert (k = i) as -> by congruence.
        rewrite Hkeep.
        { apply list_lookup_insert_eq. lia. }
        intros b q Hb Hidx. rewrite Z2Nat.id in Hidx by lia.
        apply Ha. assert (b = a) as <-.
        { apply (Hinj b a i); try done.
          - apply list_elem_of_further. apply list_elem_of_fmap.
            by exists (b, q).
          - apply list_elem_of_here. }
        apply list_elem_of_fmap. by exists (b, q).
      * by apply (Hset b q k).
    + intros j Hj. rewrite Hkeep.
      * apply list_lookup_insert_ne. intros <-.
        apply (Hj a prob); [apply list_elem_of_here|].
        rewrite Z2Nat.id by lia. done.
      * intros b q Hb. apply (Hj b q). by apply list_elem_of_further.
Qed.

(** C8, as the code has it: when the probability map's actions have
    distinct indices in range, the dense vector holds at each action's
    index the map's probability for it, and its nonzero entries are at
    exactly the indices of the actions whose probability is nonzero. *)
Theorem dense_policy_support indices (probs : list (Action * float)) :
  NoDup probs.*1 ->
  (forall a p, (a, p) ∈ probs ->
     exists i, indices !! a = Some i /\
       0 <= i < Z.of_nat (size indices)) ->
  (forall a b i, a ∈ probs.*1 -> b ∈ probs.*1 ->
     indices !! a = Some i -> indices !! b = Some i -> a = b) ->
  exists v,
    dense_policy indices probs = Ok v /\
    length v = size indices /\
    (forall a p i, (a, p) ∈ probs -> indices !! a = Some i ->
       v !! Z.to_nat i = Some p) /\
    nonzero_support v =
      index_set indices (filter (fun ap => is_nonzero ap.2) probs).
Proof.
  intros Hnd Hin Hinj. unfold dense_policy.
  destruct (fill_probs_lookup indices probs (zeros (size indices)))
    as (v & Hfill & Hlen & Hset & Hkeep); try done.
  { unfold zeros. by rewrite length_replicate. }
  unfold zeros in Hlen, Hkeep. rewrite length_replicate in Hlen.
  exists v. repeat split; try done.
  apply set_eq. intros j.
  rewrite elem_of_nonzero_support, elem_of_index_set. split.
  - intros [Hj (x & Hx & Hnz)].
    destruct (decide (Exists (fun ap => indices !! ap.1 = Some j) probs))
      as [Hex|Hnex].
    + apply Exists_exists in Hex as ([a p] & Hap & Hidx). simpl in Hidx.
      exists a, p. split; [|done].
      apply list_elem_of_filter. split; [|done]. simpl.
      rewrite (Hset a p j Hap Hidx) in Hx. injection Hx as ->.
      by apply Is_true_true.
    + rewrite Hkeep in Hx.
      * apply lookup_replicate in Hx as [-> _]. done.
      * intros a p Hap Hidx. apply Hnex. apply Exists_exists.
        exists (a, p). split; [done|]. simpl.
        rewrite Hidx. f_equal. lia.
  - intros (a & p & [Hnz Hap]%list_elem_of_filter & Hidx). simpl in Hnz.
    destruct (Hin a p Hap) as (i & Hi & Hrange).
    assert (i = j) as -> by congruence.
    split; [lia|]. exists p. split; [by eapply Hset|].
    by apply Is_true_true.
Qed.

End ExampleBuilder.

(** ** Self-play *)

Section SelfPlay.
Context `{U : Universe} {PM : PlayerModule} {I : Imports} {E : Estimator}.
Implicit Types (game : Game) (w : World) (l : Locals).

(** *** Computations that leave the files alone *)

Lemma keeps_files_ret {A} (a : A) : keeps_files (mret a).
Proof. by intros w. Qed.

Lemma keeps_files_lift {A} (r : result A) : keeps_files (lift r).
Proof. by intros w. Qed.

Lemma keeps_files_with_rng {A} (m : stateful RNG A) :
  keeps_files (with_rng m).
Proof. intros w. unfold with_rng. by destruct (m (rng w)). Qed.

Lemma keeps_files_call_local {S A} (m : stateful S A) (args : S) :
  keeps_files (call_local m args).
Proof. by intros w. Qed.

Lemma keeps_files_bind {A B} (m : stateful World A)
    (k : A -> stateful World B) :
  keeps_files m -> (forall a, keeps_files (k a)) -> keeps_files (m ≫= k).
Proof.
  intros Hm Hk w. rewrite stateful_bind_snd. specialize (Hm w).
  destruct (m w) as [[a| |] w1]; simpl in *; try done.
  by rewrite Hk.
Qed.

Lemma keeps_files_restore path : keeps_files (restore path).
Proof.
  intros w. unfold restore. by destruct (files w !! path) as [[]|].
Qed.

Lemma keeps_files_self_play_loop fuel game estimator iters c l :
  keeps_files (self_play_loop fuel game estimator iters c l).
Proof.
  revert l. induction fuel as [|fuel IH]; intros l; simpl;
    destruct (is_terminal (node l));
    auto using keeps_files_ret, keeps_files_lift.
  apply keeps_files_bind; [apply keeps_files_lift|]. intros tau.
  apply keeps_files_bind; [apply keeps_files_lift|].
  intros [searched probs].
  apply keeps_files_bind; [apply keeps_files_with_rng|]. intros a.
  apply keeps_files_bind; [apply keeps_files_lift|].
  intros next. apply IH.
Qed.

Lemma keeps_files_self_play fuel game estimator iters c :
  keeps_files (self_play fuel game estimator iters c).
Proof.
  apply keeps_files_bind; [apply keeps_files_self_play_loop|].
  intros l. apply keeps_files_call_local.
Qed.

Lemma keeps_files_self_play_games fuel game estimator iters c n data index :
  keeps_files (self_play_games fuel game estimator iters c n data index).
Proof.
  revert data. induction n as [|n IH]; intros data; simpl.
  - apply keeps_files_ret.
  - apply keeps_files_bind; [apply keeps_files_self_play|].
    intros log. apply IH.
Qed.

(** *** The roots of the searches *)

Lemma self_play_loop_linked fuel game estimator iters c l0 w l :
  (self_play_loop fuel game estimator iters c l0 w).1 = Ok l ->
  exists ss acts,
    searches l = searches l0 ++ ss /\
    action_list l = action_list l0 ++ acts /\
    linked game estimator iters c (move_count l0) (node l0) ss acts.
Proof.
  revert l0 w. induction fuel as [|fuel IH]; intros l0 w; simpl;
    destruct (is_terminal (node l0)) eqn:Hterm.
  - intros [= <-]. exists [], []. by rewrite !app_nil_r.
  - done.
  - intros [= <-]. exists [], []. by rewrite !app_nil_r.
  - intros (tau & w1 & Htau & Hk)%stateful_bind_Ok_fst.
    unfold lift in Htau. injection Htau as Htau <-.
    apply stateful_bind_Ok_fst in Hk as ([searched probs] & w2 & Hm & Hk).
    unfold lift in Hm. injection Hm as Hm <-.
    apply stateful_bind_Ok_fst in Hk as (a & w3 & _ & Hk).
    apply stateful_bind_Ok_fst in Hk as (next & w4 & Hnext & Hk).
    unfold lift in Hnext. injection Hnext as Hnext <-.
    apply IH in Hk as (ss & acts & Hss & Hacts & Hlinked). simpl in *.
    exists ((node l0, searched) :: ss), (a :: acts).
    rewrite Hss, Hacts, <- !app_assoc. repeat split; try done.
    + by exists tau, probs.
    + by exists next.
Qed.

Lemma linked_lookup game estimator iters c m start ss acts i pre post :
  linked game estimator iters c m start ss acts ->
  ss !! i = Some (pre, post) ->
  (exists tau probs,
     truediv 1 (m + Z.of_nat i + 1) = Ok tau /\
     mcts pre game estimator iters c tau = Ok (post, probs)) /\
  (forall pre' post', ss !! S i = Some (pre', post') ->
     exists a, acts !! i = Some a /\
       children_getitem (children post) a = Ok pre').
Proof.
  revert m start acts i.
  induction ss as [|[pre0 post0] ss IH]; intros m start [|a acts] i;
    simpl; try done.
  intros (-> & (tau & probs & Htau & Hm) & next & Hnext & Hlinked).
  destruct i as [|i]; simpl.
  - intros [= <- <-]. split.
    + exists tau, probs. by rewrite Z.add_0_r.
    + intros pre' post' Hnx. exists a. split; [done|].
      destruct ss as [|[pre1 post1] ss]; [done|].
      injection Hnx as <- <-.
      destruct acts as [|a1 acts]; [done|]. by destruct Hlinked as [-> _].
  - intros Hi. destruct (IH _ _ _ _ Hlinked Hi) as [Hsearch Hnx].
    split; [|done].
    destruct Hsearch as (tau' & probs' & Htau' & Hm').
    exists tau', probs'. split; [|done].
    by replace (m + Z.of_nat (S i) + 1) with (m + 1 + Z.of_nat i + 1) by lia.
Qed.

(** C1, as the code has it: in one game of [self_play] only the first
    search runs on a freshly created root; the search of every later ply
    runs on the node [children[action]] of the root the previous search
    left behind, for the action played, so whatever the previous search
    built and counted below that child is part of the next search's
    tree. *)
Theorem self_play_search_roots fuel game estimator iters c w l :
  (self_play_loop fuel game estimator iters c (self_play_init game) w).1
    = Ok l ->
  (forall pre post, searches l !! 0%nat = Some (pre, post) ->
     pre = MCTSNode_new (initial_state game)
             (which_player game (initial_state game))) /\
  (forall i pre post pre' post',
     searches l !! i = Some (pre, post) ->
     searches l !! S i = Some (pre', post') ->
     exists a, action_list l !! i = Some a /\
       children_getitem (children post) a = Ok pre') /\
  (forall i pre post, searches l !! i = Some (pre, post) ->
     exists tau probs,
       truediv 1 (Z.of_nat i + 1) = Ok tau /\
       mcts pre game estimator iters c tau = Ok (post, probs)).
Proof.
  intros (ss & acts & Hss & Hacts & Hlinked)%self_play_loop_linked.
  simpl in Hss, Hacts, Hlinked. rewrite Hss, Hacts. clear Hss Hacts.
  repeat split.
  - intros pre post Hpre.
    destruct ss as [|[pre0 post0] ss]; [done|]. injection Hpre as <- <-.
    destruct acts as [|a acts]; [done|]. by destruct Hlinked as [-> _].
  - intros i pre post pre' post' Hi HSi.
    destruct (linked_lookup _ _ _ _ _ _ _ _ _ _ _ Hlinked Hi) as [_ Hnx].
    by apply (Hnx pre' post').
  - intros i pre post Hi.
    by destruct (linked_lookup _ _ _ _ _ _ _ _ _ _ _ Hlinked Hi)
      as [Hsearch _].
Qed.

(** *** generate_self_play_data *)

Lemma dict_set_keys {V} (d : list (Z * V)) (k : Z) (v : V) :
  (dict_set d k v).*1 = if decide (k ∈ d.*1) then d.*1 else d.*1 ++ [k].
Proof.
  induction d as [|[k' v'] d IH]; simpl; [done|].
  destruct (decide (k = k')) as [->|Hne]; rewrite !fmap_cons; simpl.
  - rewrite decide_True; [done | apply list_elem_of_here].
  - rewrite IH. destruct (decide (k ∈ d.*1)) as [Hin|Hnin].
    + rewrite decide_True; [done | by apply list_elem_of_further].
    + rewrite decide_False; [done|].
      by intros [?|?]%elem_of_cons.
Qed.

(** However many games are played, they are all stored under the one key
    [index]. *)
Lemma self_play_games_keys fuel game estimator iters c n
    (data : list (Z * list Example)) index w data' w' :
  self_play_games fuel game estimator iters c n data index w
    = (Ok data', w') ->
  data'.*1 =
    if decide (n = O) then data.*1
    else if decide (index ∈ data.*1) then data.*1 else data.*1 ++ [index].
Proof.
  revert data w. induction n as [|n IH]; intros data w; simpl.
  - by intros [= <- <-].
  - intros (log & w1 & _ & Hk)%stateful_bind_Ok.
    apply IH in Hk. rewrite Hk, dict_set_keys.
    destruct n as [|n]; simpl; [done|].
    destruct (decide (index ∈ data.*1)) as [Hin|Hnin].
    + by rewrite decide_True.
    + rewrite decide_True; [done|]. apply elem_of_app. right.
      apply list_elem_of_here.
Qed.

Lemma generate_self_play_data_keys fuel game estimator iters c n w data w' :
  generate_self_play_data fuel game estimator iters c n None w
    = (Ok data, w') ->
  data.*1 = if decide (0 < n) then [0] else [].
Proof.
  unfold generate_self_play_data.
  intros ([d i] & w1 & [= <- <- <-] & Hk)%stateful_bind_Ok.
  apply stateful_bind_Ok in Hk as (data1 & w2 & Hgames & Hk).
  apply stateful_bind_Ok in Hk as ([] & w3 & [= <-] & [= <- <-]).
  apply self_play_games_keys in Hgames. rewrite Hgames. simpl.
  destruct (decide (0 < n)).
  - rewrite decide_False by lia. done.
  - rewrite decide_True by lia. done.
Qed.

(** With a save file the call never returns: the file is missing, or
    [json.load] is handed its name. *)
Lemma generate_self_play_data_save_file fuel game estimator iters c n path w :
  (generate_self_play_data fuel game estimator iters c n (Some path) w).1
    = Raise match files w !! path with
            | Some _ => AttributeError
            | None => FileNotFoundError
            end.
Proof.
  unfold generate_self_play_data, mbind, stateful_bind, sbind, open_r.
  by destruct (files w !! path).
Qed.

Lemma generate_self_play_data_Ok fuel game estimator iters c n path w data w' :
  generate_self_play_data fuel game estimator iters c n path w
    = (Ok data, w') ->
  path = None /\ files w' = files w.
Proof.
  destruct path as [path|].
  - intros Hgen.
    pose proof (generate_self_play_data_save_file fuel game estimator
                  iters c n path w) as Hraise.
    by rewrite Hgen in Hraise.
  - intros Hgen. split; [done|].
    assert (keeps_files (generate_self_play_data fuel game estimator
                           iters c n None)) as Hkeep.
    { unfold generate_self_play_data.
      apply keeps_files_bind; [apply keeps_files_ret|]. intros [d i].
      apply keeps_files_bind; [apply keeps_files_self_play_games|].
      intros d1. apply keeps_files_bind; [apply keeps_files_ret|].
      intros _. apply keeps_files_ret. }
    specialize (Hkeep w). by rewrite Hgen in Hkeep.
Qed.

End SelfPlay.

(** ** The training loop *)

Section Training.
Context `{U : Universe} {PM : PlayerModule} {I : Imports} {E : Estimator}.
Implicit Types (game : Game) (w : World) (p : Players) (cfg : Config).

Lemma keeps_files_both_positions game e1 e2 iters c n tau :
  keeps_files
    (evaluate_estimators_in_both_positions game e1 e2 iters c n tau).
Proof.
  unfold evaluate_estimators_in_both_positions.
  repeat (apply keeps_files_bind;
          [first [apply keeps_files_lift | apply keeps_files_with_rng]
          |intros ?]).
  apply keeps_files_ret.
Qed.

Lemma keeps_files_against_random game e iters c n tau :
  keeps_files (evaluate_mcts_against_random_player game e iters c n tau).
Proof.
  unfold evaluate_mcts_against_random_player.
  repeat (apply keeps_files_bind;
          [first [apply keeps_files_lift | apply keeps_files_with_rng]
          |intros ?]).
  apply keeps_files_ret.
Qed.

Lemma keeps_files_evaluate_model game (p1 p2 : Params) iters c n :
  keeps_files (evaluate_model game p1 p2 iters c n).
Proof.
  unfold evaluate_model.
  apply keeps_files_bind; [apply keeps_files_both_positions|].
  intros [[wins1 wins2] draws].
  apply keeps_files_bind; [apply keeps_files_lift|]. intros rate.
  apply keeps_files_bind; [apply keeps_files_against_random|]. intros _.
  apply keeps_files_ret.
Qed.

Lemma lift_Ok {S A} (r : result A) (s s' : S) (a : A) :
  lift r s = (Ok a, s') -> r = Ok a /\ s' = s.
Proof. unfold lift. by intros [= -> ->]. Qed.

Lemma getitem_Ok `{Countable K} {V} (d : gmap K V) (k : K) (v : V) :
  getitem d k = Ok v -> d !! k = Some v.
Proof. unfold getitem. destruct (d !! k); by intros [= ->]. Qed.

Lemma with_rng_Ok {A} (m : stateful RNG A) w (a : A) w' :
  with_rng m w = (Ok a, w') ->
  m (rng w) = (Ok a, rng w') /\ files w' = files w.
Proof.
  unfold with_rng. destruct (m (rng w)) as [r g]. by intros [= -> <-].
Qed.

(** When the constructors accept the calls, the match plays
    [num_evaluate_games] with the first estimator as player 1, then as
    many with the second estimator as player 1, and adds up: the first
    estimator's wins are player 1's wins of the first pass and player 1's
    losses of the second. *)
Lemma evaluate_estimators_in_both_positions_Ok game e1 e2 iters c n tau
    w wins1 wins2 draws w' :
  evaluate_estimators_in_both_positions game e1 e2 iters c n tau w
    = (Ok (wins1, wins2, draws), w') ->
  exists a b r1 g1 r2,
    MCTSPlayer [PyGame game; PyEstimateFn e1; PyInt iters; PyFloat c]
               [("tau"%string, PyFloat tau)] = Ok a /\
    MCTSPlayer [PyGame game; PyEstimateFn e2; PyInt iters; PyFloat c]
               [("tau"%string, PyFloat tau)] = Ok b /\
    evaluate game (<[2 := b]> {[1 := a]}) n (rng w) = (Ok r1, g1) /\
    evaluate game (<[2 := a]> {[1 := b]}) n g1 = (Ok r2, rng w') /\
    exists x1 y1 d1 x2 y2 d2,
      r1 !! 1 = Some x1 /\ r1 !! (-1) = Some y1 /\ r1 !! 0 = Some d1 /\
      r2 !! 1 = Some x2 /\ r2 !! (-1) = Some y2 /\ r2 !! 0 = Some d2 /\
      wins1 = x1 + y2 /\ wins2 = y1 + x2 /\ draws = d1 + d2.
Proof.
  unfold evaluate_estimators_in_both_positions.
  intros (a & ? & [Ha ->]%lift_Ok & Hk)%stateful_bind_Ok.
  apply stateful_bind_Ok in Hk as (b & ? & [Hb ->]%lift_Ok & Hk).
  apply stateful_bind_Ok in Hk as (r1 & w1 & [Hr1 _]%with_rng_Ok & Hk).
  apply stateful_bind_Ok in Hk as (x1 & ? & [Hx1 ->]%lift_Ok & Hk).
  apply stateful_bind_Ok in Hk as (y1 & ? & [Hy1 ->]%lift_Ok & Hk).
  apply stateful_bind_Ok in Hk as (d1 & ? & [Hd1 ->]%lift_Ok & Hk).
  apply stateful_bind_Ok in Hk as (b' & ? & [Hb' ->]%lift_Ok & Hk).
  apply stateful_bind_Ok in Hk as (a' & ? & [Ha' ->]%lift_Ok & Hk).
  apply stateful_bind_Ok in Hk as (r2 & w2 & [Hr2 _]%with_rng_Ok & Hk).
  apply stateful_bind_Ok in Hk as (y2 & ? & [Hy2 ->]%lift_Ok & Hk).
  apply stateful_bind_Ok in Hk as (x2 & ? & [Hx2 ->]%lift_Ok & Hk).
  apply stateful_bind_Ok in Hk as (d2 & ? & [Hd2 ->]%lift_Ok & Hk).
  injection Hk as <- <- <- <-.
  assert (b' = b) as -> by congruence.
  assert (a' = a) as -> by congruence.
  exists a, b, r1, (rng w1), r2. repeat split; try done.
  exists x1, y1, d1, x2, y2, d2.
  repeat split; try done; by apply getitem_Ok.
Qed.

(** The win rate [evaluate_model] returns is the candidate's share of the
    games of the match in both positions. *)
Lemma evaluate_model_Ok game (p1 p2 : Params) iters c n w rate w' :
  evaluate_model game p1 p2 iters c n w = (Ok rate, w') ->
  exists wins1 wins2 draws w1,
    evaluate_estimators_in_both_positions game (create_estimate_fn p1)
      (create_estimate_fn p2) iters c n tau_evaluation w
      = (Ok (wins1, wins2, draws), w1) /\
    truediv wins2 (wins1 + wins2 + draws) = Ok rate.
Proof.
  unfold evaluate_model.
  intros ([[wins1 wins2] draws] & w1 & Hmatch & Hk)%stateful_bind_Ok.
  apply stateful_bind_Ok in Hk as (r & w2 & Hdiv & Hk).
  unfold lift in Hdiv. injection Hdiv as Hdiv <-.
  apply stateful_bind_Ok in Hk as (? & w3 & _ & [= <- <-]).
  by exists wins1, wins2, draws, w1.
Qed.

(** One round, taken apart. *)
Lemma alphago_round_Ok fuel game create_estimator cfg step p w p' w' :
  alphago_round fuel game create_estimator cfg step p w = (Ok p', w') ->
  exists data w1 losses,
    generate_self_play_data fuel game (self_play_player p) (mcts_iters cfg)
      (c_puct cfg) (self_play_iters cfg) (self_play_file_path cfg) w
      = (Ok data, w1) /\
    files w1 = files w /\
    optimise (training_player p)
      (process_training_data data (Some (replay_length cfg)))
      (batch_size cfg) (training_iters cfg)
      = Ok (training_player p', losses) /\
    all_losses p' = all_losses p ++ [losses] /\
    evaluate_every cfg <> 0 /\
    ((step `mod` evaluate_every cfg <> 0 /\
      w' = w1 /\ self_play_player p' = self_play_player p) \/
     (step `mod` evaluate_every cfg = 0 /\
      exists rate w2,
        evaluate_model game (self_play_player p) (training_player p')
          (mcts_iters cfg) (c_puct cfg) (num_evaluate_games cfg) w1
          = (Ok rate, w2) /\
        files w' =
          <[compute_checkpoint_name step (checkpoint_path cfg) :=
              Checkpoint (training_player p')]> (files w) /\
        self_play_player p' =
          if fltb (win_rate cfg) rate then training_player p'
          else self_play_player p)).
Proof.
  unfold alphago_round.
  intros (data & w1 & Hgen & Hk)%stateful_bind_Ok.
  destruct (generate_self_play_data_Ok _ _ _ _ _ _ _ _ _ _ Hgen)
    as [_ Hfiles1].
  apply stateful_bind_Ok in Hk as ([trained losses] & w1' & Hopt & Hk).
  unfold lift in Hopt. injection Hopt as Hopt <-.
  apply stateful_bind_Ok in Hk as (r & w1' & Hmod & Hk).
  unfold lift in Hmod. injection Hmod as Hmod <-.
  unfold py_mod in Hmod.
  destruct (decide (evaluate_every cfg = 0)) as [|Hee]; [done|].
  injection Hmod as <-.
  exists data, w1, losses.
  destruct (decide (step `mod` evaluate_every cfg = 0)) as [Hr|Hr].
  - apply stateful_bind_Ok in Hk as (rate & w2 & Heval & Hk).
    pose proof (keeps_files_evaluate_model game (self_play_player p)
                  trained (mcts_iters cfg) (c_puct cfg)
                  (num_evaluate_games cfg) w1) as Hfiles2.
    rewrite Heval in Hfiles2. simpl in Hfiles2.
    apply stateful_bind_Ok in Hk as ([] & w3 & Hsave & Hk).
    unfold checkpoint_model, save in Hsave. injection Hsave as <-.
    destruct (fltb (win_rate cfg) rate) eqn:Hgt.
    + apply stateful_bind_Ok in Hk as (fresh & w4 & Hnew & Hk).
      pose proof (keeps_files_with_rng create_estimator
                    {| rng := rng w2;
                       files := <[compute_checkpoint_name step
                                    (checkpoint_path cfg) :=
                                    Checkpoint trained]> (files w2) |})
        as Hfiles4.
      rewrite Hnew in Hfiles4. simpl in Hfiles4.
      apply stateful_bind_Ok in Hk as (restored & w5 & Hres & [= <- <-]).
      unfold restore in Hres. rewrite Hfiles4, lookup_insert_eq in Hres.
      injection Hres as <- <-. simpl.
      repeat split; try done. right. split; [done|].
      exists rate, w2. rewrite Hgt, Hfiles4, Hfiles2, Hfiles1. done.
    + injection Hk as <- <-. simpl.
      repeat split; try done. right. split; [done|].
      exists rate, w2. rewrite Hgt, Hfiles2, Hfiles1. done.
  - injection Hk as <- <-. simpl.
    repeat split; try done. left. done.
Qed.

(** The files after a round that returns: with the candidate's parameters
    under the checkpoint name of the round's index if the round evaluated,
    as they were if it did not. *)
Lemma alphago_round_checkpoint fuel game create_estimator cfg step
    p w p' w' :
  alphago_round fuel game create_estimator cfg step p w = (Ok p', w') ->
  files w' =
    if decide (step `mod` evaluate_every cfg = 0)
    then <[compute_checkpoint_name step (checkpoint_path cfg) :=
             Checkpoint (training_player p')]> (files w)
    else files w.
Proof.
  intros (data & w1 & losses & _ & Hfiles & _ & _ & _ & Hcases)
    %alphago_round_Ok.
  destruct Hcases as [(Hr & -> & _)|(Hr & rate & w2 & _ & Hw' & _)].
  - by rewrite decide_False.
  - by rewrite decide_True.
Qed.

(** The promotion step, for player constructors that accept the calls: on
    a round that evaluates, the win rate is the candidate's share of the
    games of the match; when it is strictly above [win_rate] the
    reference estimator becomes the parameters just written to the
    round's checkpoint, the candidate's; when it is equal, below or
    unordered, the reference estimator is the one it was. *)
Lemma alphago_round_promotion fuel game create_estimator cfg step
    p w p' w' :
  alphago_round fuel game create_estimator cfg step p w = (Ok p', w') ->
  step `mod` evaluate_every cfg = 0 ->
  exists wins1 wins2 draws w1 w2 rate,
    evaluate_estimators_in_both_positions game
      (create_estimate_fn (self_play_player p))
      (create_estimate_fn (training_player p'))
      (mcts_iters cfg) (c_puct cfg) (num_evaluate_games cfg)
      tau_evaluation w1 = (Ok (wins1, wins2, draws), w2) /\
    truediv wins2 (wins1 + wins2 + draws) = Ok rate /\
    files w' !! compute_checkpoint_name step (checkpoint_path cfg)
      = Some (Checkpoint (training_player p')) /\
    (SFcompare (win_rate cfg) rate = Some Lt ->
       self_play_player p' = training_player p') /\
    (SFcompare (win_rate cfg) rate <> Some Lt ->
       self_play_player p' = self_play_player p).
Proof.
  intros (data & w1 & losses & _ & _ & _ & _ & _ & Hcases)
    %alphago_round_Ok Hstep.
  destruct Hcases as [(Hr & _)|(_ & rate & w2 & Heval & Hw' & Hsp)];
    [done|].
  apply evaluate_model_Ok in Heval
    as (wins1 & wins2 & draws & w3 & Hmatch & Hrate).
  exists wins1, wins2, draws, w1, w3, rate.
  repeat split; try done.
  - rewrite Hw'. apply lookup_insert_eq.
  - intros Hlt. rewrite Hsp. unfold fltb, SFltb. by rewrite Hlt.
  - intros Hnlt. rewrite Hsp. unfold fltb, SFltb.
    by destruct (SFcompare (win_rate cfg) rate) as [[]|].
Qed.

End Training.

(** ** The search's output *)

Section SearchOutput.
Context `{U : Universe}.

(** An action whose edge was never visited gets probability 0, whatever
    [tau] is. *)
Lemma action_probabilities_unvisited fpow eps tau
    (ch : list (Action * MCTSNode)) a c :
  (a, c) ∈ ch -> N c = 0 ->
  (a, fzero) ∈ action_probabilities fpow eps tau ch.
Proof.
  intros Hin Hn. unfold action_probabilities, greedy_probabilities.
  destruct (fltb tau eps).
  - apply list_elem_of_fmap. exists (a, c). split; [|done]. simpl.
    rewrite decide_False; [done|]. intros [_ ?]. done.
  - apply list_elem_of_fmap. exists (a, c). split; [|done]. simpl.
    by rewrite decide_True.
Qed.

End SearchOutput.

(** ** The match, with the player module of the sources *)

Section SourcePlayers.
Context `{U : Universe} {I : @Imports U player_py} {E : Estimator}.

(** [MCTSPlayer.__init__] has no parameter [tau]. *)
Lemma MCTSPlayer_init_tau (game e iters c tau : pyval) :
  MCTSPlayer_init [game; e; iters; c] [("tau"%string, tau)]
  = Raise TypeError.
Proof. reflexivity. Qed.

(** [RandomPlayer(game)] leaves the parameter [game] without value. *)
Lemma RandomPlayer_init_game (game : pyval) :
  RandomPlayer_init [game] [] = Raise TypeError.
Proof. reflexivity. Qed.

(** C5, on the code: with [MCTSPlayer] as [player.py] defines it, the
    match raises [TypeError] at the first [MCTSPlayer(game, estimator1,
    mcts_iters, c_puct, tau=tau)], before any game is played. *)
Theorem evaluate_estimators_in_both_positions_raises (game : Game)
    (estimator1 estimator2 : EstimateFn) (iters : Z) (c : float)
    (num_evaluate_games : Z) (tau : float) (w : World) :
  evaluate_estimators_in_both_positions (PM := player_py)
    game estimator1 estimator2 iters c num_evaluate_games tau w
  = (Raise TypeError, w).
Proof.
  unfold evaluate_estimators_in_both_positions, mbind, stateful_bind, sbind.
  cbn [MCTSPlayer player_py]. unfold lift at 1.
  by rewrite MCTSPlayer_init_tau.
Qed.


End SourcePlayers.

(** ** The properties on Nim *)

Section OnNim.
Import Nim.
#[local] Existing Instance universe.
#[local] Existing Instance estimator.

Lemma process_self_play_data_length_witness :
  exists data,
    (process_self_play_data (nim 2) short_game).1 = Ok data /\
    length data = (length (states_ short_game) - 1)%nat /\
    map ex_state data = map (fun s => nan_to_num (as_array s)) [encode 2 1].
Proof.
  apply (process_self_play_data_length (nim 2) short_game
           [encode 2 1] (encode 0 2)
           (<[1 := float_of_Z 1]> {[2 := float_of_Z (-1)]})).
  - reflexivity.
  - reflexivity.
  - reflexivity.
  - reflexivity.
  - intros s ->%list_elem_of_singleton. vm_compute. eauto.
  - intros probs a p ->%list_elem_of_singleton Hap.
    apply elem_of_cons in Hap as [[= -> ->]|Hap].
    { exists 0. vm_compute. repeat split; intros [=]. }
    apply list_elem_of_singleton in Hap as [= -> ->].
    exists 1. vm_compute. repeat split; intros [=].
Defined.

Lemma process_self_play_data_outcome_witness :
  exists data,
    (process_self_play_data (nim 2) short_game).1 = Ok data /\
    exists final outcome,
      last (states_ short_game) = Some final /\
      utility (nim 2) final = Ok outcome /\
      forall i ex, data !! i = Some ex ->
        exists s, removelast (states_ short_game) !! i = Some s /\
          outcome !! which_player (nim 2) s = Some (ex_z ex).
Proof.
  eexists. split; [vm_compute; reflexivity|].
  apply (process_self_play_data_outcome (nim 2) short_game).
  vm_compute. reflexivity.
Defined.

Lemma process_self_play_data_nan_to_num_witness :
  exists data,
    (process_self_play_data (nim 2) infinite_game).1 = Ok data /\
    forall i ex, data !! i = Some ex ->
      exists s, removelast (states_ infinite_game) !! i = Some s /\
        length (ex_state ex) = length (as_array s) /\
        forall j x, as_array s !! j = Some x ->
          exists y, ex_state ex !! j = Some y /\
            is_finite y = true /\
            (x = S754_nan -> y = fzero) /\
            (x = S754_infinity false -> y = float_max) /\
            (x = S754_infinity true -> y = fopp float_max) /\
            (is_finite x = true -> y = x).
Proof.
  eexists. split; [vm_compute; reflexivity|].
  apply (process_self_play_data_nan_to_num (nim 2) infinite_game).
  vm_compute. reflexivity.
Defined.

(** C9, against the claim: a state holding +infinity is emitted with the
    largest finite value in its place, not with 0. *)
Lemma nan_to_num_keeps_infinity_large :
  exists data ex,
    (process_self_play_data (nim 2) infinite_game).1 = Ok data /\
    data !! 0%nat = Some ex /\
    (exists s, states_ infinite_game !! 0%nat = Some s /\
               as_array s !! 0%nat = Some (S754_infinity false)) /\
    ex_state ex !! 0%nat = Some float_max /\
    float_max <> fzero.
Proof.
  eexists _, _. split; [vm_compute; reflexivity|].
  split; [reflexivity|]. split; [by eexists|].
  split; [reflexivity|]. vm_compute. discriminate.
Defined.

(** The search does report maps with a zero probability. *)
Lemma mcts_spec_one_sided :
  exists searched,
    mcts_spec (nim 2) estimate fone fpow eps
      (MCTSNode_new (initial_state (nim 2)) 1) 1 fone
    = Ok (searched, one_sided).
Proof. eexists. vm_compute. reflexivity. Qed.

(** One iteration on a state with one legal action gives that action
    probability 1, at [tau = 1] and at a [tau] below [eps]. *)
Lemma mcts_spec_single_action :
  (exists searched,
     mcts_spec (nim 1) estimate fone fpow eps
       (MCTSNode_new (initial_state (nim 1)) 1) 1 fone
     = Ok (searched, [(1, fone)])) /\
  (exists searched,
     mcts_spec (nim 1) estimate fone fpow eps
       (MCTSNode_new (initial_state (nim 1)) 1) 1
       (fdiv (float_of_Z 1) (float_of_Z 1000000))
     = Ok (searched, [(1, fone)])).
Proof. split; eexists; vm_compute; reflexivity. Qed.

(** C8, against the claim: an action of the map with probability 0 has
    its index outside the vector's nonzero support. *)
Lemma dense_policy_zero_probability :
  exists v,
    dense_policy (game_action_indices (nim 2)) one_sided = Ok v /\
    nonzero_support v <> index_set (game_action_indices (nim 2)) one_sided.
Proof.
  exists [fone; fzero]. split; [reflexivity|].
  intros Heq.
  assert (1 ∈ index_set (game_action_indices (nim 2)) one_sided) as Hin.
  { apply elem_of_index_set. exists 2, fzero. split; [|reflexivity].
    apply list_elem_of_further, list_elem_of_here. }
  rewrite <- Heq in Hin.
  apply elem_of_nonzero_support in Hin as [_ (x & Hx & Hnz)].
  vm_compute in Hx. injection Hx as <-. discriminate Hnz.
Qed.

Lemma dense_policy_support_witness :
  exists v,
    dense_policy (game_action_indices (nim 2)) one_sided = Ok v /\
    length v = size (game_action_indices (nim 2)) /\
    (forall a p i, (a, p) ∈ one_sided ->
       game_action_indices (nim 2) !! a = Some i ->
       v !! Z.to_nat i = Some p) /\
    nonzero_support v =
      index_set (game_action_indices (nim 2))
        (filter (fun ap => is_nonzero ap.2) one_sided).
Proof.
  apply (dense_policy_support (game_action_indices (nim 2)) one_sided).
  - apply (bool_decide_unpack _). vm_compute. exact I.
  - intros a p [[= -> ->]|Hap]%elem_of_cons.
    { exists 0. vm_compute. repeat split; intros [=]. }
    apply list_elem_of_singleton in Hap as [= -> ->].
    exists 1. vm_compute. repeat split; intros [=].
  - intros a b i Ha Hb.
    apply elem_of_cons in Ha as [->|Ha];
      [|apply list_elem_of_singleton in Ha as ->];
      (apply elem_of_cons in Hb as [->|Hb];
       [|apply list_elem_of_singleton in Hb as ->]);
      vm_compute; congruence.
Defined.

Lemma self_play_search_roots_witness :
  exists l,
    (self_play_loop (I := imports_src) 10 (nim 3) estimate 3 fone
       (self_play_init (nim 3)) world0).1 = Ok l /\
    (forall pre post, searches l !! 0%nat = Some (pre, post) ->
       pre = MCTSNode_new (initial_state (nim 3))
               (which_player (nim 3) (initial_state (nim 3)))) /\
    (forall i pre post pre' post',
       searches l !! i = Some (pre, post) ->
       searches l !! S i = Some (pre', post') ->
       exists a, action_list l !! i = Some a /\
         children_getitem (children post) a = Ok pre') /\
    (forall i pre post, searches l !! i = Some (pre, post) ->
       exists tau probs,
         truediv 1 (Z.of_nat i + 1) = Ok tau /\
         mcts (Imports := imports_src) pre (nim 3) estimate 3 fone tau
           = Ok (post, probs)).
Proof.
  eexists. split; [vm_compute; reflexivity|].
  apply (self_play_search_roots (I := imports_src) 10 (nim 3) estimate 3
           fone world0).
  vm_compute. reflexivity.
Defined.

(** C1, against the claim: in a game of Nim with three stones the second
    search starts from a node that already has children: the node the
    first search created and expanded, not a fresh root for the state
    reached. *)
Lemma self_play_second_search_not_fresh :
  exists l pre post,
    (self_play_loop (I := imports_src) 10 (nim 3) estimate 3 fone
       (self_play_init (nim 3)) world0).1 = Ok l /\
    searches l !! 1%nat = Some (pre, post) /\
    children pre <> [] /\
    ~ fresh_root (nim 3) pre.
Proof.
  eexists _, _, _. split; [vm_compute; reflexivity|].
  split; [reflexivity|]. split; [discriminate|].
  intros Hfresh. apply (f_equal children) in Hfresh. discriminate Hfresh.
Qed.

(** C2, on the code: two games are played and stored under the one key 0;
    the mapping returned holds the second game only. *)
Theorem generate_self_play_data_one_key :
  exists log1 w1 log2 w2,
    self_play (I := imports_src) 10 (nim 3) estimate 3 fone world0
      = (Ok log1, w1) /\
    self_play (I := imports_src) 10 (nim 3) estimate 3 fone w1
      = (Ok log2, w2) /\
    log1 <> log2 /\
    generate_self_play_data (I := imports_src) 10 (nim 3) 0 3 fone 2 None
      world0 = (Ok [(0, log2)], w2).
Proof.
  eexists _, _, _, _. split; [vm_compute; reflexivity|].
  split; [vm_compute; reflexivity|].
  split; [|vm_compute; reflexivity].
  intros Heq. apply (f_equal (map ex_action)) in Heq. vm_compute in Heq.
  discriminate Heq.
Qed.


Lemma alphago_round_checkpoint_witness :
  exists p' w',
    alphago_round (I := imports_src) 10 (nim 3) create_estimator
      (config 1 2 (Some 2)) 3 players0 world2 = (Ok p', w') /\
    files w' =
      if decide (3 `mod` evaluate_every (config 1 2 (Some 2)) = 0)
      then <[compute_checkpoint_name 3
               (checkpoint_path (config 1 2 (Some 2)))
               := Checkpoint (training_player p')]> (files world2)
      else files world2.
Proof.
  eexists _, _. split; [vm_compute; reflexivity|].
  apply (alphago_round_checkpoint (I := imports_src) 10 (nim 3)
           create_estimator (config 1 2 (Some 2)) 3 players0 world2).
  vm_compute. reflexivity.
Defined.

Lemma alphago_round_promotion_witness :
  exists p' w',
    alphago_round (I := imports_tau) 10 (nim 3) create_estimator
      (config 1 1 None) 0 players0 world43 = (Ok p', w') /\
    exists wins1 wins2 draws w1 w2 rate,
      evaluate_estimators_in_both_positions (I := imports_tau) (nim 3)
        (create_estimate_fn (self_play_player players0))
        (create_estimate_fn (training_player p'))
        (mcts_iters (config 1 1 None)) (c_puct (config 1 1 None))
        (num_evaluate_games (config 1 1 None)) tau_evaluation w1
        = (Ok (wins1, wins2, draws), w2) /\
      truediv wins2 (wins1 + wins2 + draws) = Ok rate /\
      files w' !! compute_checkpoint_name 0
                    (checkpoint_path (config 1 1 None))
        = Some (Checkpoint (training_player p')) /\
      (SFcompare (win_rate (config 1 1 None)) rate = Some Lt ->
         self_play_player p' = training_player p') /\
      (SFcompare (win_rate (config 1 1 None)) rate <> Some Lt ->
         self_play_player p' = self_play_player players0).
Proof.
  eexists _, _. split; [vm_compute; reflexivity|].
  apply (alphago_round_promotion (I := imports_tau) 10 (nim 3)
           create_estimator (config 1 1 None) 0 players0 world43).
  - vm_compute. reflexivity.
  - reflexivity.
Defined.

(** Both outcomes of the comparison occur once the constructors accept
    the calls: from [world43] the candidate wins every game and is
    promoted, from [world0] it is not; the round's checkpoint is written
    either way. *)
Lemma alphago_round_both_outcomes :
  (exists p' w',
     alphago_round (I := imports_tau) 10 (nim 3) create_estimator
       (config 1 1 None) 0 players0 world43 = (Ok p', w') /\
     files w' !! "ckpt/0.checkpoint"%string
       = Some (Checkpoint (training_player p')) /\
     self_play_player p' = training_player p' /\
     self_play_player p' <> self_play_player players0) /\
  (exists p' w',
     alphago_round (I := imports_tau) 10 (nim 3) create_estimator
       (config 1 1 None) 0 players0 world0 = (Ok p', w') /\
     files w' !! "ckpt/0.checkpoint"%string
       = Some (Checkpoint (training_player p')) /\
     self_play_player p' = self_play_player players0 /\
     self_play_player p' <> training_player p').
Proof.
  split; eexists _, _; (split; [vm_compute; reflexivity|]);
    (split; [vm_compute; reflexivity|]);
    split; [reflexivity|discriminate|reflexivity|discriminate].
Qed.

(** C4, on the code: with the player module of the sources the first
    round of [train_alphago], an evaluating one, ends in the [TypeError]
    of the match: no win rate is measured, no checkpoint is written and
    the reference estimator is never replaced. *)
Theorem train_alphago_evaluation_raises :
  exists w',
    train_alphago_players (I := imports_src) 10 (nim 3) create_estimator
      (config 1 1 None) world0 = (Raise TypeError, w') /\
    0 `mod` evaluate_every (config 1 1 None) = 0 /\
    files w' = ∅.
Proof. eexists. repeat split; vm_compute; reflexivity. Qed.

End OnNim.

(** ** Further properties of the example builder *)

Section ExampleBuilderFurther.
Context `{U : Universe}.
Implicit Types (game : Game) (c : Caller) (indices : gmap Action Z).

Lemma zip3_length_min {A B C} (l1 : list A) (l2 : list B) (l3 : list C) :
  length (zip3 l1 l2 l3)
  = (length l1 `min` (length l2 `min` length l3))%nat.
Proof.
  revert l2 l3. induction l1 as [|a l1 IH]; intros [|b l2] [|c l3];
    simpl; try done; try lia.
  by rewrite IH.
Qed.

Lemma length_removelast_pred {A} (l : list A) :
  length (removelast l) = (length l - 1)%nat.
Proof.
  destruct l as [|x l _] using rev_ind; [done|].
  rewrite removelast_last, length_app. simpl. lia.
Qed.

Lemma setitem_Ok v i x v' :
  setitem v i x = Ok v' ->
  - Z.of_nat (length v) <= i < Z.of_nat (length v) /\
  (position (length v) i < length v)%nat /\
  v' = <[position (length v) i := x]> v.
Proof.
  unfold setitem, position.
  destruct (decide (0 <= i < Z.of_nat (length v))) as [Hi|Hi].
  - intros [= <-]. rewrite decide_True by lia. repeat split; lia.
  - destruct (decide (- Z.of_nat (length v) <= i < 0)) as [Hn|Hn]; [|done].
    intros [= <-]. rewrite decide_False by lia. repeat split; lia.
Qed.

Lemma fill_probs_app indices (l1 l2 : list (Action * float)) v :
  fill_probs indices (l1 ++ l2) v
  = fill_probs indices l1 v ≫= fill_probs indices l2.
Proof.
  revert v. induction l1 as [|[a p] l1 IH]; intros v; simpl; [done|].
  destruct (getitem indices a) as [i| |]; simpl; try done.
  destruct (setitem v i p) as [v1| |]; simpl; try done.
Qed.

Lemma fill_probs_Ok_indexed indices (items : list (Action * float)) v v' :
  fill_probs indices items v = Ok v' ->
  forall a p, (a, p) ∈ items ->
    exists i, indices !! a = Some i /\
      - Z.of_nat (length v) <= i < Z.of_nat (length v).
Proof.
  revert v. induction items as [|[a0 p0] items IH]; intros v; simpl.
  - by intros _ a p ?%elem_of_nil.
  - intros (i & Hi%getitem_Ok & (v1 & Hset & Hrest)%result_bind_Ok)
      %result_bind_Ok a p [[= -> ->]|Hin]%elem_of_cons.
    + exists i. split; [done|]. by apply setitem_Ok in Hset as [? _].
    + rewrite <- (setitem_length _ _ _ _ Hset). by apply (IH v1 Hrest a p).
Qed.

Lemma fill_probs_unnamed indices (items : list (Action * float)) v v' j :
  fill_probs indices items v = Ok v' ->
  (forall a p i, (a, p) ∈ items -> indices !! a = Some i ->
     position (length v) i <> j) ->
  v' !! j = v !! j.
Proof.
  revert v. induction items as [|[a0 p0] items IH]; intros v; simpl.
  - by intros [= <-].
  - intros (i & Hi%getitem_Ok & (v1 & Hset & Hrest)%result_bind_Ok)
      %result_bind_Ok Hj.
    pose proof (setitem_length _ _ _ _ Hset) as Hlen.
    apply setitem_Ok in Hset as (_ & _ & ->).
    rewrite (IH _ Hrest).
    + apply list_lookup_insert_ne. apply (Hj a0 p0 i); [|done].
      apply list_elem_of_here.
    + intros a p k Hin Hk. rewrite Hlen. apply (Hj a p k); [|done].
      by apply list_elem_of_further.
Qed.

(** X1: when [process_self_play_data] returns, it has paired states,
    actions and probability maps position by position and stopped at the
    shortest of the three lists (the states without the last): surplus
    entries are ignored without an error, and example i carries action i
    and the dense vector of map i. *)
Theorem process_self_play_data_zip game c data :
  (process_self_play_data game c).1 = Ok data ->
  length data
    = ((length (states_ c) - 1) `min`
       (length (actions_ c) `min` length (action_probs_ c)))%nat /\
  forall i ex, data !! i = Some ex ->
    exists probs,
      actions_ c !! i = Some (ex_action ex) /\
      action_probs_ c !! i = Some probs /\
      dense_policy (action_indices c) probs = Ok (ex_probs ex).
Proof.
  intros (final & outcome & Hlast & Hu & Hall)%process_self_play_data_Ok.
  split.
  - rewrite <- (Forall2_length _ _ _ Hall), zip3_length_min.
    by rewrite length_removelast_pred.
  - intros i ex Hex.
    destruct (Forall2_lookup_r _ _ _ _ _ Hall Hex)
      as ([[s a] probs] & Hsap & Hbuild).
    apply zip3_lookup in Hsap as (_ & Ha & Hp).
    apply build_example_Ok in Hbuild as (_ & Hdense & _ & ->).
    by exists probs.
Qed.

(** X2: [process_self_play_data] returns only if every action of every
    probability map it pairs with a state is a key of [action_indices]
    with an index the vector accepts, from [-len(action_indices)] up to
    [len(action_indices) - 1]. *)
Theorem process_self_play_data_indexed game c data i ex probs a p :
  (process_self_play_data game c).1 = Ok data ->
  data !! i = Some ex ->
  action_probs_ c !! i = Some probs ->
  (a, p) ∈ probs ->
  exists j, action_indices c !! a = Some j /\
    - Z.of_nat (size (action_indices c)) <= j
      < Z.of_nat (size (action_indices c)).
Proof.
  intros (final & outcome & Hlast & Hu & Hall)%process_self_play_data_Ok
    Hex Hprobs Hin.
  destruct (Forall2_lookup_r _ _ _ _ _ Hall Hex)
    as ([[s a'] probs'] & Hsap & Hbuild).
  apply zip3_lookup in Hsap as (_ & _ & Hp).
  assert (probs' = probs) as -> by congruence.
  apply build_example_Ok in Hbuild as (_ & Hdense & _).
  unfold dense_policy in Hdense.
  destruct (fill_probs_Ok_indexed _ _ _ _ Hdense a p Hin) as (j & Hj & Hr).
  exists j. split; [done|].
  unfold zeros in Hr. by rewrite length_replicate in Hr.
Qed.

(** X3: on an empty list of states the call raises [IndexError] at the
    pop and leaves the argument objects as they were. *)
Theorem process_self_play_data_empty game c :
  states_ c = [] ->
  process_self_play_data game c = (Raise IndexError, c).
Proof.
  intros Hs. unfold process_self_play_data, mbind, stateful_bind, sbind.
  unfold pop_states. by rewrite Hs.
Qed.

(** X4: the dense policy vector has one entry per key of
    [action_indices], and every entry that no action of the map names,
    directly or counted from the end, is 0. *)
Theorem dense_policy_unnamed_zero indices (probs : list (Action * float))
    v j :
  dense_policy indices probs = Ok v ->
  (j < size indices)%nat ->
  (forall a p i, (a, p) ∈ probs -> indices !! a = Some i ->
     position (size indices) i <> j) ->
  length v = size indices /\ v !! j = Some fzero.
Proof.
  unfold dense_policy. intros Hfill Hj Hnamed.
  pose proof (fill_probs_length _ _ _ _ Hfill) as Hlen.
  unfold zeros in Hlen. rewrite length_replicate in Hlen.
  split; [done|].
  rewrite (fill_probs_unnamed _ _ _ _ j Hfill).
  - unfold zeros. by apply lookup_replicate_2.
  - intros a p i Hin Hi. unfold zeros. rewrite length_replicate.
    by apply (Hnamed a p i).
Qed.

(** X5: when two actions of a map name the same entry, the later one
    wins: after the loop the entry named by the map's last item holds
    that item's probability. *)
Theorem dense_policy_last_wins indices (probs : list (Action * float))
    a p i v :
  dense_policy indices (probs ++ [(a, p)]) = Ok v ->
  indices !! a = Some i ->
  v !! position (size indices) i = Some p.
Proof.
  unfold dense_policy. rewrite fill_probs_app.
  intros (v1 & Hfill & Hlast)%result_bind_Ok Hi.
  pose proof (fill_probs_length _ _ _ _ Hfill) as Hlen.
  unfold zeros in Hlen. rewrite length_replicate in Hlen.
  simpl in Hlast. unfold getitem in Hlast. rewrite Hi in Hlast.
  simpl in Hlast.
  apply result_bind_Ok in Hlast as (v2 & Hset & [= <-]).
  apply setitem_Ok in Hset as (_ & Hpos & ->).
  rewrite <- Hlen. by apply list_lookup_insert_eq.
Qed.

End ExampleBuilderFurther.

(** ** The replay data *)

Section ReplayData.
Context `{U : Universe}.

Lemma slice_last_suffix {A} (n : Z) (l : list A) :
  slice_last n l `suffix_of` l.
Proof. unfold slice_last. case_decide; apply suffix_drop. Qed.

Lemma slice_last_length {A} (n : Z) (l : list A) :
  length (slice_last n l)
  = if decide (0 < n) then (Z.to_nat n `min` length l)%nat
    else (length l - Z.to_nat (- n))%nat.
Proof. unfold slice_last. case_decide; rewrite length_drop; lia. Qed.

Lemma process_training_data_all_length
    (self_play_data : list (Z * list Example)) :
  length (process_training_data self_play_data None)
  = sum_list (map (fun kv => length kv.2) self_play_data).
Proof.
  unfold process_training_data.
  induction self_play_data as [|[index game_log] d IH]; [done|].
  rewrite bind_cons, length_app, IH. simpl. by rewrite length_map.
Qed.

Lemma process_training_data_all
    (self_play_data : list (Z * list Example)) :
  process_training_data self_play_data None
  = map (fun ex => (ex_state ex, ex_probs ex, ex_z ex))
      (concat (map snd self_play_data)).
Proof.
  unfold process_training_data.
  induction self_play_data as [|[index game_log] d IH]; [done|].
  rewrite bind_cons, IH. simpl. by rewrite map_app.
Qed.

(** X6: [process_training_data] goes through the game logs in the order of
    the dictionary and through each log from its first example to its
    last, and lists the (state, probs_vector, z) of each example, the
    action left out: one tuple per example.  With a [replay_length] it
    returns a suffix of that list: the last [replay_length] tuples (all of
    them if there are fewer) for a positive value, the list without its
    first [-replay_length] tuples for a negative one, and the whole list
    for 0. *)
Theorem process_training_data_replay
    (self_play_data : list (Z * list Example)) (n : Z) :
  let every := process_training_data self_play_data None in
  let kept := process_training_data self_play_data (Some n) in
  every = map (fun ex => (ex_state ex, ex_probs ex, ex_z ex))
            (concat (map snd self_play_data)) /\
  length every = sum_list (map (fun kv => length kv.2) self_play_data) /\
  kept `suffix_of` every /\
  length kept
    = (if decide (0 < n) then (Z.to_nat n `min` length every)%nat
       else (length every - Z.to_nat (- n))%nat) /\
  process_training_data self_play_data (Some 0) = every.
Proof.
  simpl. split; [apply process_training_data_all|].
  split; [apply process_training_data_all_length|].
  split; [apply slice_last_suffix|].
  split; [apply slice_last_length|]. done.
Qed.

End ReplayData.

(** ** Further properties of self-play *)

Section SelfPlayFurther.
Context `{U : Universe} {PM : PlayerModule} {I : Imports} {E : Estimator}.
Implicit Types (game : Game) (w : World) (l : Locals).

Lemma self_play_loop_shaped fuel game estimator iters c s0 l0 w l :
  shaped s0 l0 ->
  (self_play_loop fuel game estimator iters c l0 w).1 = Ok l ->
  shaped s0 l /\ is_terminal (node l) = true.
Proof.
  revert l0 w. induction fuel as [|fuel IH]; intros l0 w Hshape; simpl;
    destruct (is_terminal (node l0)) eqn:Hterm; try done.
  - by intros [= <-].
  - by intros [= <-].
  - intros (tau & w1 & _ & Hk)%stateful_bind_Ok_fst.
    apply stateful_bind_Ok_fst in Hk as ([searched probs] & w2 & _ & Hk).
    apply stateful_bind_Ok_fst in Hk as (a & w3 & _ & Hk).
    apply stateful_bind_Ok_fst in Hk as (next & w4 & _ & Hk).
    apply IH in Hk; [done|].
    destruct Hshape as (Hg & Hp & Hm & Hhd & Hlast).
    unfold shaped. simpl. rewrite !length_app. simpl.
    repeat split; try lia.
    + destruct (game_state_list l0); [done|]. done.
    + by rewrite last_snoc.
Qed.

End SelfPlayFurther.

Section SelfPlayShape.
Context `{U : Universe} {PM : PlayerModule} {I : Imports} {E : Estimator}.
Implicit Types (game : Game) (w : World) (l : Locals).

Lemma zip3_actions {A B C} (l1 : list A) (l2 : list B) (l3 : list C) :
  length l1 = length l2 -> length l3 = length l2 ->
  map (fun t => t.1.2) (zip3 l1 l2 l3) = l2.
Proof.
  revert l1 l3. induction l2 as [|b l2 IH]; intros [|a l1] [|c l3];
    simpl; intros H1 H3; try done.
  f_equal. apply IH; congruence.
Qed.

(** X7: when the loop of [self_play] ends, the node it stands on is
    terminal, the list of states starts with the game's initial state and
    ends with that node's state, and it is one longer than the list of
    actions and the list of probability maps, which count the moves
    made. *)
Theorem self_play_loop_shape fuel game estimator iters c w l :
  (self_play_loop fuel game estimator iters c (self_play_init game) w).1
    = Ok l ->
  is_terminal (node l) = true /\
  head (game_state_list l) = Some (initial_state game) /\
  last (game_state_list l) = Some (game_state (node l)) /\
  length (game_state_list l) = S (length (action_list l)) /\
  length (action_probs_list l) = length (action_list l) /\
  move_count l = Z.of_nat (length (action_list l)).
Proof.
  intros Hloop.
  destruct (self_play_loop_shaped fuel game estimator iters c
              (initial_state game) (self_play_init game) w l)
    as [(Hg & Hp & Hm & Hhd & Hlast) Hterm]; [|done|done].
  by repeat split.
Qed.

(** X8: a game of [self_play] that returns gives one example per move
    made, in the order of play: example i holds the action played at move
    i and the sanitised state it was played in; the terminal state gives
    no example. *)
Theorem self_play_examples fuel game estimator iters c w data w' :
  self_play fuel game estimator iters c w = (Ok data, w') ->
  exists l,
    (self_play_loop fuel game estimator iters c (self_play_init game) w).1
      = Ok l /\
    map ex_action data = action_list l /\
    map ex_state data
      = map (fun s => nan_to_num (as_array s))
            (removelast (game_state_list l)) /\
    length data = Z.to_nat (move_count l).
Proof.
  unfold self_play.
  intros (l & w1 & Hloop & Hcall)%stateful_bind_Ok.
  exists l. split; [by rewrite Hloop|].
  destruct (self_play_loop_shaped fuel game estimator iters c
              (initial_state game) (self_play_init game) w l)
    as [(Hg & Hp & Hm & _ & _) _]; [done|by rewrite Hloop|].
  unfold call_local in Hcall. injection Hcall as Hcall _.
  apply process_self_play_data_Ok in Hcall
    as (final & outcome & _ & _ & Hall). simpl in Hall.
  assert (length (removelast (game_state_list l))
          = length (action_list l)) as Hs.
  { destruct (game_state_list l) as [|x gs _] using rev_ind; [done|].
    rewrite removelast_last. rewrite length_app in Hg. simpl in Hg. lia. }
  assert (map ex_action data = action_list l) as Hact.
  { rewrite <- (zip3_actions (removelast (game_state_list l))
                  (action_list l) (action_probs_list l)) at 1 by done.
    clear -Hall.
    induction Hall as [|[[s a] probs] ex zs exs Hex _ IH]; [done|].
    simpl. f_equal; [|done].
    by apply build_example_Ok in Hex as (_ & _ & _ & ->). }
  split; [done|]. split.
  - rewrite <- (zip3_states (removelast (game_state_list l))
                  (action_list l) (action_probs_list l)) at 1
      by congruence.
    rewrite map_map. clear -Hall.
    induction Hall as [|[[s a] probs] ex zs exs Hex _ IH]; [done|].
    simpl. f_equal; [|done].
    by apply build_example_Ok in Hex as (_ & _ & -> & _).
  - rewrite Hm, Nat2Z.id, <- Hact. by rewrite length_map.
Qed.

End SelfPlayShape.

(** ** Checkpoint names *)

Lemma string_app_length (s1 s2 : string) :
  String.length (s1 +:+ s2) = (String.length s1 + String.length s2)%nat.
Proof. induction s1 as [|a s1 IH]; simpl; [done|]. by rewrite IH. Qed.

Lemma string_app_inj_r (s s1 s2 : string) :
  s1 +:+ s = s2 +:+ s -> s1 = s2.
Proof.
  revert s2. induction s1 as [|a s1 IH]; intros [|b s2]; simpl.
  - done.
  - intros Heq. apply (f_equal String.length) in Heq. simpl in Heq.
    rewrite ?string_app_length in Heq. simpl in Heq. lia.
  - intros Heq. apply (f_equal String.length) in Heq. simpl in Heq.
    rewrite ?string_app_length in Heq. simpl in Heq. lia.
  - intros [= -> Heq]. f_equal. by apply IH.
Qed.

(** X9: for one checkpoint path, different steps have different
    checkpoint names, so the checkpoint of one round never overwrites the
    checkpoint of another. *)
Theorem compute_checkpoint_name_inj (path : string) (step1 step2 : Z) :
  compute_checkpoint_name step1 path = compute_checkpoint_name step2 path ->
  step1 = step2.
Proof.
  unfold compute_checkpoint_name. intros Heq.
  apply (inj (String.app path)) in Heq.
  apply string_app_inj_r in Heq. by apply (inj pretty).
Qed.

(** ** Further properties of the training loop *)

Section TrainingFurther.
Context `{U : Universe} {PM : PlayerModule} {I : Imports} {E : Estimator}.
Implicit Types (game : Game) (w : World) (p : Players) (cfg : Config).

Lemma alphago_rounds_Ok fuel game create_estimator cfg steps p w p' w' :
  alphago_rounds fuel game create_estimator cfg steps p w = (Ok p', w') ->
  length (all_losses p') = (length (all_losses p) + length steps)%nat /\
  (Forall (fun step => step `mod` evaluate_every cfg <> 0) steps ->
   self_play_player p' = self_play_player p /\ files w' = files w).
Proof.
  revert p w. induction steps as [|step steps IH]; intros p w; simpl.
  - intros [= <- <-]. split; [lia|done].
  - intros (p1 & w1 & Hround & Hrest)%stateful_bind_Ok.
    apply IH in Hrest as [Hlen Hkeep].
    apply alphago_round_Ok in Hround
      as (data & w0 & losses & _ & Hfiles & _ & Hlosses & _ & Hcases).
    split.
    + rewrite Hlen, Hlosses, length_app. simpl. lia.
    + intros [Hstep Hsteps]%Forall_cons.
      destruct (Hkeep Hsteps) as [-> ->].
      destruct Hcases as [(_ & -> & ->)|(Hr & _)]; done.
Qed.

Lemma alphago_rounds_restore_step fuel game create_estimator cfg r
    steps p w :
  alphago_rounds fuel game create_estimator (with_restore_step cfg r)
    steps p w
  = alphago_rounds fuel game create_estimator cfg steps p w.
Proof.
  revert p w. induction steps as [|step steps IH]; intros p w; [done|].
  simpl. unfold mbind, stateful_bind, sbind.
  change (alphago_round fuel game create_estimator
            (with_restore_step cfg r) step p w)
    with (alphago_round fuel game create_estimator cfg step p w).
  destruct (alphago_round fuel game create_estimator cfg step p w)
    as [[p1| |] w1]; try done.
Qed.

(** X10: when [train_alphago] returns, the list of losses has one entry
    per round of the loop, [alphago_steps] of them. *)
Theorem train_alphago_losses_length fuel game create_estimator cfg w
    losses w' :
  train_alphago fuel game create_estimator cfg w = (Ok losses, w') ->
  length losses = Z.to_nat (alphago_steps cfg).
Proof.
  unfold train_alphago.
  intros (p & w1 & Hplayers & [= <- <-])%stateful_bind_Ok.
  unfold train_alphago_players in Hplayers.
  apply stateful_bind_Ok in Hplayers as (sp & w2 & _ & Hk).
  apply stateful_bind_Ok in Hk as (tp & w3 & _ & Hk).
  apply stateful_bind_Ok in Hk as ([sp' tp'] & w4 & _ & Hk).
  apply alphago_rounds_Ok in Hk as [Hlen _]. simpl in Hlen.
  rewrite Hlen. unfold range. rewrite length_map, length_seq. f_equal. lia.
Qed.

(** X11: [restore_step = 0] counts as no restore step: the loop reads no
    checkpoint and starts at round 0 with two newly created estimators,
    exactly as with [restore_step = None]. *)
Theorem train_alphago_restore_step_zero fuel game create_estimator cfg w :
  train_alphago_players fuel game create_estimator
    (with_restore_step cfg (Some 0)) w
  = train_alphago_players fuel game create_estimator
      (with_restore_step cfg None) w.
Proof.
  unfold train_alphago_players, mbind, stateful_bind, sbind. simpl.
  destruct (with_rng create_estimator w) as [[sp| |] w1]; try done.
  destruct (with_rng create_estimator w1) as [[tp| |] w2]; try done.
  unfold mret, stateful_ret, sret.
  by rewrite !alphago_rounds_restore_step.
Qed.

(** X12: with [evaluate_every = 0] a round plays its games and trains the
    candidate, then raises [ZeroDivisionError] at
    [alphago_step % evaluate_every]: nothing is evaluated or
    checkpointed. *)
Theorem alphago_round_evaluate_every_zero fuel game create_estimator cfg
    step p w data w1 trained losses :
  evaluate_every cfg = 0 ->
  generate_self_play_data fuel game (self_play_player p) (mcts_iters cfg)
    (c_puct cfg) (self_play_iters cfg) (self_play_file_path cfg) w
    = (Ok data, w1) ->
  optimise (training_player p)
    (process_training_data data (Some (replay_length cfg)))
    (batch_size cfg) (training_iters cfg) = Ok (trained, losses) ->
  alphago_round fuel game create_estimator cfg step p w
    = (Raise ZeroDivisionError, w1) /\ files w1 = files w.
Proof.
  intros Hee Hgen Hopt. split.
  - unfold alphago_round, mbind, stateful_bind, sbind.
    rewrite Hgen. unfold lift at 1. rewrite Hopt.
    unfold lift at 1, py_mod. by rewrite Hee.
  - by apply generate_self_play_data_Ok in Hgen as [_ ?].
Qed.

(** X13: over rounds none of which evaluates, the reference estimator
    stays the one it was and no file is written, however the candidate is
    trained. *)
Theorem alphago_rounds_without_evaluation fuel game create_estimator cfg
    steps p w p' w' :
  alphago_rounds fuel game create_estimator cfg steps p w = (Ok p', w') ->
  Forall (fun step => step `mod` evaluate_every cfg <> 0) steps ->
  self_play_player p' = self_play_player p /\ files w' = files w.
Proof. intros [_ Hkeep]%alphago_rounds_Ok Hsteps. by apply Hkeep. Qed.

End TrainingFurther.

Section SourcePlayersFurther.
Context `{U : Universe} {I : @Imports U player_py}.

(** X14: with [MCTSPlayer] as [player.py] defines it, the match against
    the random player raises [TypeError] at its first
    [MCTSPlayer(game, estimator, mcts_iters, c_puct, tau=tau)], before
    any game is played. *)
Theorem evaluate_mcts_against_random_player_raises (game : Game)
    (estimator : State -> gmap Action float * float) (iters : Z)
    (c : float) (num_evaluate_games : Z) (tau : float) (w : World) :
  evaluate_mcts_against_random_player (PM := player_py)
    game estimator iters c num_evaluate_games tau w
  = (Raise TypeError, w).
Proof.
  unfold evaluate_mcts_against_random_player, mbind, stateful_bind, sbind.
  cbn [MCTSPlayer player_py]. unfold lift at 1.
  by rewrite MCTSPlayer_init_tau.
Qed.

Lemma uniform_mapM (x : float) (l : list (Action * State)) :
  mapM (fun '(action, _) => p ← Ok x; Ok (action, p)) l
  = Ok (map (fun '(action, _) => (action, x)) l).
Proof.
  induction l as [|[a s] l IH]; [done|].
  cbn. cbn in IH. by rewrite IH.
Qed.

(** X15: [RandomPlayer.action_probabilities] on a state with legal
    actions returns a map with exactly those actions, in their order,
    each with the same probability [1 / len(next_states)]; for a state
    whose dictionary of next states is empty it returns the empty map
    without dividing. *)
Theorem RandomPlayer_action_probabilities_uniform (self : SrcPlayer)
    (game : Game) (game_state : State) (next_states : list (Action * State)) :
  attr_game self = PyGame game ->
  compute_next_states game game_state = Ok next_states ->
  exists probs,
    RandomPlayer_action_probabilities self game_state = Ok probs /\
    probs.*1 = next_states.*1 /\
    Forall (fun ap =>
              ap.2 = fdiv (float_of_Z 1)
                          (float_of_Z (Z.of_nat (length next_states))))
           probs.
Proof.
  intros Hgame Hnext. unfold RandomPlayer_action_probabilities.
  rewrite Hgame, Hnext.
  change (Ok next_states ≫= ?k) with (k next_states). cbv beta.
  destruct next_states as [|[a s] l] eqn:Hl.
  { exists []. by repeat split. }
  rewrite <- Hl. unfold truediv. rewrite decide_False by (subst; simpl; lia).
  rewrite uniform_mapM.
  generalize (fdiv (float_of_Z 1)
                (float_of_Z (Z.of_nat (length next_states)))) as x.
  intros x. eexists. split; [done|]. clear. split.
  - induction next_states as [|[a s] l IH]; [done|].
    rewrite !fmap_cons. simpl. f_equal. exact IH.
  - induction next_states as [|[a s] l IH]; constructor; [done|].
    exact IH.
Qed.

End SourcePlayersFurther.

(** ** The further properties on Nim *)

Section FurtherOnNim.
Import Nim.
#[local] Existing Instance universe.
#[local] Existing Instance estimator.

Lemma process_self_play_data_zip_witness :
  exists data,
    (process_self_play_data (nim 2) ragged_game).1 = Ok data /\
    length data
      = ((length (states_ ragged_game) - 1) `min`
         (length (actions_ ragged_game)
            `min` length (action_probs_ ragged_game)))%nat /\
    forall i ex, data !! i = Some ex ->
      exists probs,
        actions_ ragged_game !! i = Some (ex_action ex) /\
        action_probs_ ragged_game !! i = Some probs /\
        dense_policy (action_indices ragged_game) probs = Ok (ex_probs ex).
Proof.
  eexists. split; [vm_compute; reflexivity|].
  apply (process_self_play_data_zip (nim 2) ragged_game).
  vm_compute. reflexivity.
Defined.

Lemma process_self_play_data_indexed_witness :
  exists j, action_indices short_game !! 2 = Some j /\
    - Z.of_nat (size (action_indices short_game)) <= j
      < Z.of_nat (size (action_indices short_game)).
Proof.
  eapply (process_self_play_data_indexed (nim 2) short_game _ 0%nat _
            [(1, half); (2, half)] 2 half).
  - vm_compute. reflexivity.
  - reflexivity.
  - reflexivity.
  - apply list_elem_of_further, list_elem_of_here.
Defined.

Lemma process_self_play_data_empty_witness :
  process_self_play_data (nim 2) empty_game = (Raise IndexError, empty_game).
Proof.
  apply (process_self_play_data_empty (nim 2) empty_game). reflexivity.
Defined.

Lemma dense_policy_unnamed_zero_witness :
  exists v,
    dense_policy (game_action_indices (nim 2)) [(1, fone)] = Ok v /\
    length v = size (game_action_indices (nim 2)) /\
    v !! 1%nat = Some fzero.
Proof.
  eexists. split; [vm_compute; reflexivity|].
  apply (dense_policy_unnamed_zero (game_action_indices (nim 2))
           [(1, fone)]).
  - vm_compute. reflexivity.
  - vm_compute. lia.
  - intros a p i [= -> ->]%list_elem_of_singleton.
    vm_compute. intros [= <-]. discriminate.
Defined.

Lemma dense_policy_last_wins_witness :
  exists v,
    dense_policy (U := universe) colliding_indices
      ([(1, half)] ++ [(2, fone)]) = Ok v /\
    v !! position (size colliding_indices) (-2) = Some fone.
Proof.
  eexists. split; [vm_compute; reflexivity|].
  apply (dense_policy_last_wins (U := universe) colliding_indices
           [(1, half)] 2 fone (-2)).
  - vm_compute. reflexivity.
  - reflexivity.
Defined.

Lemma self_play_loop_shape_witness :
  exists l,
    (self_play_loop (I := imports_src) 10 (nim 3) estimate 3 fone
       (self_play_init (nim 3)) world0).1 = Ok l /\
    is_terminal (node l) = true /\
    head (game_state_list l) = Some (initial_state (nim 3)) /\
    last (game_state_list l) = Some (game_state (node l)) /\
    length (game_state_list l) = S (length (action_list l)) /\
    length (action_probs_list l) = length (action_list l) /\
    move_count l = Z.of_nat (length (action_list l)).
Proof.
  eexists. split; [vm_compute; reflexivity|].
  apply (self_play_loop_shape (I := imports_src) 10 (nim 3) estimate 3
           fone world0).
  vm_compute. reflexivity.
Defined.

Lemma self_play_examples_witness :
  exists data w' l,
    self_play (I := imports_src) 10 (nim 3) estimate 3 fone world0
      = (Ok data, w') /\
    (self_play_loop (I := imports_src) 10 (nim 3) estimate 3 fone
       (self_play_init (nim 3)) world0).1 = Ok l /\
    map ex_action data = action_list l /\
    map ex_state data
      = map (fun s => nan_to_num (as_array s))
            (removelast (game_state_list l)) /\
    length data = Z.to_nat (move_count l).
Proof.
  eexists _, _.
  assert (self_play (I := imports_src) 10 (nim 3) estimate 3 fone world0
          = (Ok _, _)) as Hplay by (vm_compute; reflexivity).
  destruct (self_play_examples (I := imports_src) 10 (nim 3) estimate 3
              fone world0 _ _ Hplay) as (l & Hl).
  exists l. split; [exact Hplay|exact Hl].
Defined.

Lemma compute_checkpoint_name_inj_witness : (3 : Z) = 3.
Proof.
  apply (compute_checkpoint_name_inj "ckpt/" 3 3). reflexivity.
Defined.

Lemma train_alphago_losses_length_witness :
  exists losses w',
    train_alphago (I := imports_src) 10 (nim 3) create_estimator
      (config 3 7 (Some 2)) world2 = (Ok losses, w') /\
    length losses = Z.to_nat (alphago_steps (config 3 7 (Some 2))).
Proof.
  eexists _, _. split; [vm_compute; reflexivity|].
  eapply (train_alphago_losses_length (I := imports_src) 10 (nim 3)
            create_estimator (config 3 7 (Some 2)) world2).
  vm_compute. reflexivity.
Defined.

Lemma alphago_round_evaluate_every_zero_witness :
  exists w1,
    alphago_round (I := imports_src) 10 (nim 3) create_estimator
      (config 1 0 None) 0 players0 world0 = (Raise ZeroDivisionError, w1) /\
    files w1 = files world0.
Proof.
  eexists.
  eapply (alphago_round_evaluate_every_zero (I := imports_src) 10 (nim 3)
            create_estimator (config 1 0 None) 0 players0 world0).
  - reflexivity.
  - vm_compute. reflexivity.
  - vm_compute. reflexivity.
Defined.

Lemma alphago_rounds_without_evaluation_witness :
  exists p' w',
    alphago_rounds (I := imports_src) 10 (nim 3) create_estimator
      (config 3 7 (Some 2)) [3; 4; 5] players0 world2 = (Ok p', w') /\
    self_play_player p' = self_play_player players0 /\
    files w' = files world2.
Proof.
  eexists _, _. split; [vm_compute; reflexivity|].
  apply (alphago_rounds_without_evaluation (I := imports_src) 10 (nim 3)
           create_estimator (config 3 7 (Some 2)) [3; 4; 5] players0 world2).
  - vm_compute. reflexivity.
  - repeat constructor; vm_compute; discriminate.
Defined.

Lemma RandomPlayer_action_probabilities_uniform_witness :
  exists probs,
    RandomPlayer_action_probabilities random_player (initial_state (nim 2))
      = Ok probs /\
    probs.*1 = [(1, encode 1 2); (2, encode 0 2)].*1 /\
    Forall (fun ap => ap.2 = fdiv (float_of_Z 1) (float_of_Z 2)) probs.
Proof.
  apply (RandomPlayer_action_probabilities_uniform random_player (nim 2)
           (initial_state (nim 2)) [(1, encode 1 2); (2, encode 0 2)]).
  - reflexivity.
  - vm_compute. reflexivity.
Defined.

End FurtherOnNim.

(** ** What a round writes *)

Section RoundFiles.
Context `{U : Universe} {PM : PlayerModule} {I : Imports} {E : Estimator}.
Implicit Types (game : Game) (w : World) (p : Players) (cfg : Config).



End RoundFiles.

Section RoundFilesOfTheSources.
Context `{U : Universe} {PM : PlayerModule} {I : Imports} {E : Estimator}.
Context (Isrc : @Imports U player_py).
Implicit Types (game : Game) (w : World) (p : Players) (cfg : Config).


End RoundFilesOfTheSources.
